(** * The OpenAI-compatible content generator of gemini-cli

    A shallow embedding of
    [packages/core/src/core/openAICompatibleContentGenerator.ts]:
    the response wrapper [OpenAIGenerateContentResponse], the message
    converter [convertToOpenAIMessages], the token estimator [countTokens],
    the two HTTP entry points [generateContent] and [generateContentStream]
    with the server-sent-events decoder of the latter, and [embedContent].

    The file has three layers.
    - The platform: the part of the JavaScript runtime the adapter calls.
      Strings are sequences of UTF-16 code units, with [split], [trim],
      [startsWith], [substring] and [join]; [TextDecoder] is the UTF-8
      decoder of the Encoding standard; [JSON.parse] is a recursive-descent
      parser of the JSON grammar; a value of type [any] is a JSON value,
      an object literal over such values, or [undefined].
    - The adapter, one definition per method of the source, under the
      source's names.  A call that can throw returns a [completion]; an
      [async] method returns how its promise settles; the server is a
      [World] that answers each [fetch] with its next response and records
      the request; the async generator of [generateContentStream] is a
      state ([StreamGenerator]) and its [next()].
    - The properties, each on the definitions above. *)

From Stdlib Require Import String Ascii NArith ZArith QArith Qround.
From Stdlib.Strings Require Import Byte.
From Stdlib Require Import Bool Arith Lia DecimalString List.
Import ListNotations.

Set Implicit Arguments.
Open Scope nat_scope.

(* ===================================================================== *)
(** * Platform: JavaScript strings *)
(* ===================================================================== *)

(** A JavaScript string is a finite sequence of UTF-16 code units; a code
    unit is a number below 65536. *)
Definition code_unit := N.
Definition jsstring := list code_unit.

Definition unit_of_ascii (a : ascii) : code_unit := N_of_ascii a.

(** [js s] is the JavaScript string whose code units are the characters of
    the (ASCII) literal [s]. *)
Definition js (s : string) : jsstring :=
  map unit_of_ascii (list_ascii_of_string s).

(** The quotation mark (34) cannot be written inside a literal here, so a
    literal that needs one writes an apostrophe (39) in its place: [jq s] is
    [js s] with every apostrophe turned into a quotation mark. *)
Definition QUOTE : code_unit := 34%N.
Definition APOSTROPHE : code_unit := 39%N.
Definition LF : code_unit := 10%N.

Definition requote (u : code_unit) : code_unit :=
  if N.eqb u APOSTROPHE then QUOTE else u.

Definition jq (s : string) : jsstring := map requote (js s).

Fixpoint jsstring_eqb (a b : jsstring) : bool :=
  match a, b with
  | [], [] => true
  | x :: a', y :: b' => N.eqb x y && jsstring_eqb a' b'
  | _, _ => false
  end.

(** [s.startsWith(p)] *)
Fixpoint startsWith (s p : jsstring) {struct p} : bool :=
  match p, s with
  | [], _ => true
  | _ :: _, [] => false
  | y :: p', x :: s' => N.eqb x y && startsWith s' p'
  end.

(** [s.substring(n)]: the code units from index [min n (length s)] on. *)
Definition substring (s : jsstring) (n : nat) : jsstring := skipn n s.

(** [s.includes(p)] *)
Fixpoint includes (s p : jsstring) : bool :=
  startsWith s p ||
  match s with
  | [] => false
  | _ :: s' => includes s' p
  end.

(** The code units [String.prototype.trim] removes: ECMAScript's WhiteSpace
    and LineTerminator productions. *)
Definition is_js_whitespace (u : code_unit) : bool :=
  (N.leb 9 u && N.leb u 13)                (* TAB LF VT FF CR *)
  || N.eqb u 32 || N.eqb u 160             (* SP, NBSP *)
  || N.eqb u 5760                          (* U+1680 *)
  || (N.leb 8192 u && N.leb u 8202)        (* U+2000 .. U+200A *)
  || N.eqb u 8232 || N.eqb u 8233          (* LS, PS *)
  || N.eqb u 8239 || N.eqb u 8287          (* U+202F, U+205F *)
  || N.eqb u 12288 || N.eqb u 65279.       (* U+3000, U+FEFF *)

Fixpoint trimStart (s : jsstring) : jsstring :=
  match s with
  | u :: s' => if is_js_whitespace u then trimStart s' else s
  | [] => []
  end.

Definition trimEnd (s : jsstring) : jsstring := rev (trimStart (rev s)).

(** [s.trim()] *)
Definition trim (s : jsstring) : jsstring := trimEnd (trimStart s).

(** [s.split(sep)] for a separator of at least one code unit and no limit
    (ECMAScript, String.prototype.split): scan left to right; where [sep]
    occurs, close the current segment and resume after the occurrence; the
    code units after the last occurrence form the last segment, so the
    result is never empty.  [skip] counts the code units of an occurrence
    still to step over, [cur] holds the current segment in reverse. *)
Fixpoint split_from (sep s : jsstring) (skip : nat) (cur : jsstring)
  : list jsstring :=
  match s with
  | [] => [rev cur]
  | u :: s' =>
      match skip with
      | S k => split_from sep s' k cur
      | O =>
          if startsWith s sep
          then rev cur :: split_from sep s' (length sep - 1) []
          else split_from sep s' 0 (u :: cur)
      end
  end.

Definition split (s sep : jsstring) : list jsstring := split_from sep s 0 [].

(** [xs.join(sep)] on an array whose elements are strings or [undefined]
    (ECMAScript, Array.prototype.join): the separator goes before every
    element but the first, and an [undefined] element contributes the empty
    string. *)
Fixpoint join_from (sep : jsstring) (k : nat) (xs : list (option jsstring))
  (R : jsstring) : jsstring :=
  match xs with
  | [] => R
  | x :: xs' =>
      let R1 := match k with O => R | S _ => R ++ sep end in
      let next := match x with None => [] | Some s => s end in
      join_from sep (S k) xs' (R1 ++ next)
  end.

Definition join (xs : list (option jsstring)) (sep : jsstring) : jsstring :=
  join_from sep 0 xs [].

(** [String(n)] for a non-negative integer: its decimal digits. *)
Definition decimal (n : N) : jsstring :=
  js (NilZero.string_of_uint (N.to_uint n)).

(* ===================================================================== *)
(** * Platform: TextDecoder *)
(* ===================================================================== *)

(** The UTF-8 decoder of the Encoding standard, in its default replacement
    mode: [pending] is a started multi-byte sequence, with the code point
    built so far, the continuation bytes still needed and the range the next
    byte must lie in. *)
Record utf8_pending := {
  code_point : N;
  bytes_needed : nat;
  lower_boundary : N;
  upper_boundary : N
}.

Definition REPLACEMENT : N := 65533%N.   (* U+FFFD *)
Definition BOM : N := 65279%N.           (* U+FEFF *)

Definition in_range (lo hi b : N) : bool := N.leb lo b && N.leb b hi.

(** A byte read when no sequence is pending: the code points it emits and
    the sequence it starts. *)
Definition utf8_lead (b : N) : list N * option utf8_pending :=
  if N.leb b 127 then ([b], None)
  else if in_range 194 223 b then
    ([], Some {| code_point := N.land b 31; bytes_needed := 1;
                 lower_boundary := 128; upper_boundary := 191 |})
  else if in_range 224 239 b then
    ([], Some {| code_point := N.land b 15; bytes_needed := 2;
                 lower_boundary := if N.eqb b 224 then 160 else 128;
                 upper_boundary := if N.eqb b 237 then 159 else 191 |})
  else if in_range 240 244 b then
    ([], Some {| code_point := N.land b 7; bytes_needed := 3;
                 lower_boundary := if N.eqb b 240 then 144 else 128;
                 upper_boundary := if N.eqb b 244 then 143 else 191 |})
  else ([REPLACEMENT], None).

(** One byte.  A byte outside the expected range ends the pending sequence
    with U+FFFD and is then read again as a lead byte. *)
Definition utf8_step (st : option utf8_pending) (b : N)
  : list N * option utf8_pending :=
  match st with
  | None => utf8_lead b
  | Some p =>
      if in_range (lower_boundary p) (upper_boundary p) b then
        let cp := (N.shiftl (code_point p) 6 + N.land b 63)%N in
        match bytes_needed p with
        | S (S k) =>
            ([], Some {| code_point := cp; bytes_needed := S k;
                         lower_boundary := 128; upper_boundary := 191 |})
        | _ => ([cp], None)
        end
      else
        let (out, st') := utf8_lead b in (REPLACEMENT :: out, st')
  end.

(** The whole input; a sequence still pending at the end gives U+FFFD. *)
Fixpoint utf8_run (st : option utf8_pending) (bs : list N) : list N :=
  match bs with
  | [] => match st with None => [] | Some _ => [REPLACEMENT] end
  | b :: bs' => let (out, st') := utf8_step st b in out ++ utf8_run st' bs'
  end.

(** A code point as UTF-16: itself, or a surrogate pair from U+10000 on. *)
Definition utf16_units (cp : N) : jsstring :=
  if N.ltb cp 65536 then [cp]
  else let c := (cp - 65536)%N in
       [(55296 + N.shiftr c 10)%N; (56320 + N.land c 1023)%N].

Definition strip_bom (cps : list N) : list N :=
  match cps with
  | c :: rest => if N.eqb c BOM then rest else cps
  | [] => []
  end.

(** UTF-8 decode of a byte sequence to a string, a leading byte order mark
    dropped. *)
Definition utf8_decode (bytes : list byte) : jsstring :=
  flat_map utf16_units (strip_bom (utf8_run None (map Byte.to_N bytes))).

(** [new TextDecoder().decode(value)]: the call passes no [stream] option,
    so every call decodes its bytes on their own, from a fresh decoder. *)
Definition TextDecoder_decode (input : list byte) : jsstring :=
  utf8_decode input.

(** The bytes of an ASCII literal, and of one with apostrophes for
    quotation marks. *)
Definition bytes (s : string) : list byte := list_byte_of_string s.

Definition requote_byte (b : byte) : byte :=
  match b with x27 => x22 | _ => b end.

Definition bq (s : string) : list byte := map requote_byte (bytes s).

(* ===================================================================== *)
(** * Platform: values, exceptions and property reads *)
(* ===================================================================== *)

(** The values the adapter handles: what [JSON.parse] builds, object
    literals over them, and [undefined].  An object is its list of own
    properties; a read takes the first entry with the key, and a write
    replaces that entry or appends one.  A number keeps its literal: the
    adapter only passes numbers through. *)
Unset Elimination Schemes.
Inductive any : Type :=
| VUndefined
| VNull
| VBool (b : bool)
| VNumber (literal : jsstring)
| VString (s : jsstring)
| VArray (elements : list any)
| VObject (properties : list (jsstring * any)).
Set Elimination Schemes.

(** What a [throw] carries. *)
Inductive exn : Type :=
| TypeError
| SyntaxError
| Error (message : jsstring).

(** The completion of an expression: a value, or a throw. *)
Inductive completion (A : Type) : Type :=
| Normal (a : A)
| Throw (e : exn).
Arguments Normal {A} a.
Arguments Throw {A} e.

Definition bind {A B} (c : completion A) (k : A -> completion B)
  : completion B :=
  match c with
  | Normal a => k a
  | Throw e => Throw e
  end.

Notation "x <- c ;; k" := (bind c (fun x => k))
  (at level 61, c at next level, right associativity).

Fixpoint lookup (fs : list (jsstring * any)) (k : jsstring) : option any :=
  match fs with
  | [] => None
  | (k', v) :: fs' => if jsstring_eqb k' k then Some v else lookup fs' k
  end.

Fixpoint set_property (fs : list (jsstring * any)) (k : jsstring) (v : any)
  : list (jsstring * any) :=
  match fs with
  | [] => [(k, v)]
  | (k', v') :: fs' =>
      if jsstring_eqb k' k then (k, v) :: fs'
      else (k', v') :: set_property fs' k v
  end.

(** [v.k] for a property name [k] that no prototype defines and that is
    neither [length] nor an index (the adapter reads [choices], [message],
    [delta], [content], [index] and [finish_reason]): reading from
    [undefined] or [null] throws a TypeError, an object gives its own
    property or [undefined], every other value gives [undefined]. *)
Definition get (v : any) (k : jsstring) : completion any :=
  match v with
  | VUndefined | VNull => Throw TypeError
  | VObject fs =>
      Normal (match lookup fs k with Some x => x | None => VUndefined end)
  | _ => Normal VUndefined
  end.

(** [v[i]] for an index [i]. *)
Definition get_index (v : any) (i : nat) : completion any :=
  match v with
  | VUndefined | VNull => Throw TypeError
  | VArray xs => Normal (nth i xs VUndefined)
  | VString s =>
      Normal (match nth_error s i with
              | Some u => VString [u]
              | None => VUndefined
              end)
  | VObject fs =>
      Normal (match lookup fs (decimal (N.of_nat i)) with
              | Some x => x
              | None => VUndefined
              end)
  | _ => Normal VUndefined
  end.

(** [f] over a list, left to right, stopping at the first throw. *)
Fixpoint map_completion {A B} (f : A -> completion B) (xs : list A)
  : completion (list B) :=
  match xs with
  | [] => Normal []
  | x :: xs' =>
      y <- f x ;;
      ys <- map_completion f xs' ;;
      Normal (y :: ys)
  end.

(** [v.map(f)]: only an array has a callable [map]; on [undefined] and
    [null] the property read throws, on every other value the call does (no
    value here is a function). *)
Definition array_map {B} (v : any) (f : any -> completion B)
  : completion (list B) :=
  match v with
  | VArray xs => map_completion f xs
  | _ => Throw TypeError
  end.

Fixpoint indexed_from (i : N) (xs : list any) : list (jsstring * any) :=
  match xs with
  | [] => []
  | x :: xs' => (decimal i, x) :: indexed_from (N.succ i) xs'
  end.

(** The own enumerable properties a spread [{...v}] copies: an object's
    properties, an array's elements and a string's code units under their
    indices, nothing for the other values. *)
Definition own_properties (v : any) : list (jsstring * any) :=
  match v with
  | VObject fs => fs
  | VArray xs => indexed_from 0 xs
  | VString s => indexed_from 0 (map (fun u => VString [u]) s)
  | _ => []
  end.

(* ===================================================================== *)
(** * Platform: JSON.parse *)
(* ===================================================================== *)

(** The JSON grammar of ECMA-404 as [JSON.parse] reads it, by recursive
    descent over the code units.  A sub-parser returns what it read and the
    code units after it. *)
Inductive parsed (A : Type) : Type :=
| OutOfFuel
| Malformed
| Parsed (a : A) (rest : jsstring).
Arguments OutOfFuel {A}.
Arguments Malformed {A}.
Arguments Parsed {A} a rest.

(** JSON white space: tab, line feed, carriage return, space. *)
Definition is_json_ws (u : code_unit) : bool :=
  N.eqb u 9 || N.eqb u 10 || N.eqb u 13 || N.eqb u 32.

Fixpoint skip_ws (s : jsstring) : jsstring :=
  match s with
  | u :: s' => if is_json_ws u then skip_ws s' else s
  | [] => []
  end.

Definition is_digit (u : code_unit) : bool := in_range 48 57 u.

Definition hex_digit (u : code_unit) : option N :=
  if in_range 48 57 u then Some (u - 48)%N
  else if in_range 65 70 u then Some (u - 55)%N
  else if in_range 97 102 u then Some (u - 87)%N
  else None.

Definition hex4 (a b c d : code_unit) : option code_unit :=
  match hex_digit a, hex_digit b, hex_digit c, hex_digit d with
  | Some x, Some y, Some z, Some w =>
      Some (((x * 16 + y) * 16 + z) * 16 + w)%N
  | _, _, _, _ => None
  end.

(** The code unit a two-character escape stands for. *)
Definition simple_escape (e : code_unit) : option code_unit :=
  if N.eqb e 34 then Some 34%N            (* quotation mark *)
  else if N.eqb e 92 then Some 92%N       (* reverse solidus *)
  else if N.eqb e 47 then Some 47%N       (* solidus *)
  else if N.eqb e 98 then Some 8%N        (* b *)
  else if N.eqb e 102 then Some 12%N      (* f *)
  else if N.eqb e 110 then Some 10%N      (* n *)
  else if N.eqb e 114 then Some 13%N      (* r *)
  else if N.eqb e 116 then Some 9%N       (* t *)
  else None.

(** The characters of a string after its opening quotation mark, up to and
    including the closing one; [acc] is the string read so far, reversed.
    A control character, an unknown escape and a missing closing mark are
    errors. *)
Fixpoint parse_chars (s : jsstring) (acc : jsstring)
  : option (jsstring * jsstring) :=
  match s with
  | [] => None
  | u :: rest =>
      if N.eqb u 34 then Some (rev acc, rest)
      else if N.eqb u 92 then
        match rest with
        | [] => None
        | e :: rest1 =>
            if N.eqb e 117 then
              match rest1 with
              | a :: b :: c :: d :: rest2 =>
                  match hex4 a b c d with
                  | Some x => parse_chars rest2 (x :: acc)
                  | None => None
                  end
              | _ => None
              end
            else
              match simple_escape e with
              | Some x => parse_chars rest1 (x :: acc)
              | None => None
              end
        end
      else if N.ltb u 32 then None
      else parse_chars rest (u :: acc)
  end.

(** The longest run of digits at the front. *)
Fixpoint take_digits (s : jsstring) : jsstring * jsstring :=
  match s with
  | u :: s' =>
      if is_digit u
      then let (ds, rest) := take_digits s' in (u :: ds, rest)
      else ([], s)
  | [] => ([], [])
  end.

(** The integer part: a single 0, or a run of digits that starts with
    1 to 9. *)
Definition parse_int (s : jsstring) : option (jsstring * jsstring) :=
  match s with
  | u :: s' =>
      if N.eqb u 48 then Some ([u], s')
      else if in_range 49 57 u then Some (take_digits s)
      else None
  | [] => None
  end.

(** An optional fraction: a full stop and at least one digit. *)
Definition parse_frac (s : jsstring) : option (jsstring * jsstring) :=
  match s with
  | u :: s' =>
      if N.eqb u 46 then
        match take_digits s' with
        | ([], _) => None
        | (ds, rest) => Some (u :: ds, rest)
        end
      else Some ([], s)
  | [] => Some ([], [])
  end.

(** An optional exponent: e or E, an optional sign, at least one digit. *)
Definition parse_exp (s : jsstring) : option (jsstring * jsstring) :=
  match s with
  | u :: s' =>
      if N.eqb u 101 || N.eqb u 69 then
        let (sign, s1) :=
          match s' with
          | g :: s'' =>
              if N.eqb g 43 || N.eqb g 45 then ([g], s'') else ([], s')
          | [] => ([], [])
          end in
        match take_digits s1 with
        | ([], _) => None
        | (ds, rest) => Some (u :: sign ++ ds, rest)
        end
      else Some ([], s)
  | [] => Some ([], [])
  end.

Definition parse_number (s : jsstring) : option (jsstring * jsstring) :=
  let (minus, s0) :=
    match s with
    | u :: s' => if N.eqb u 45 then ([u], s') else ([], s)
    | [] => ([], [])
    end in
  match parse_int s0 with
  | None => None
  | Some (i, s1) =>
      match parse_frac s1 with
      | None => None
      | Some (f, s2) =>
          match parse_exp s2 with
          | None => None
          | Some (e, s3) => Some (minus ++ i ++ f ++ e, s3)
          end
      end
  end.

(** A value, the elements of an array after its first bracket, and the
    members of an object after its first brace.  Every call on the rest of
    the input costs one unit of [fuel]; [JSON_parse] below starts with more
    than any input can use ([parse_value_fuel]). *)
Fixpoint parse_value (fuel : nat) (s : jsstring) : parsed any :=
  match fuel with
  | O => OutOfFuel
  | S f =>
      match skip_ws s with
      | [] => Malformed
      | u :: r =>
          if N.eqb u 123 then                      (* left brace *)
            match skip_ws r with
            | c :: r' =>
                if N.eqb c 125 then Parsed (VObject []) r'
                else parse_members f (c :: r') []
            | [] => Malformed
            end
          else if N.eqb u 91 then                  (* left bracket *)
            match skip_ws r with
            | c :: r' =>
                if N.eqb c 93 then Parsed (VArray []) r'
                else parse_elements f (c :: r') []
            | [] => Malformed
            end
          else if N.eqb u 34 then
            match parse_chars r [] with
            | Some (str, rest) => Parsed (VString str) rest
            | None => Malformed
            end
          else if startsWith (u :: r) (js "true") then
            Parsed (VBool true) (skipn 4 (u :: r))
          else if startsWith (u :: r) (js "false") then
            Parsed (VBool false) (skipn 5 (u :: r))
          else if startsWith (u :: r) (js "null") then
            Parsed VNull (skipn 4 (u :: r))
          else
            match parse_number (u :: r) with
            | Some (lit, rest) => Parsed (VNumber lit) rest
            | None => Malformed
            end
      end
  end

with parse_elements (fuel : nat) (s : jsstring) (acc : list any)
  : parsed any :=
  match fuel with
  | O => OutOfFuel
  | S f =>
      match parse_value f s with
      | Parsed v rest =>
          match skip_ws rest with
          | c :: r =>
              if N.eqb c 44 then parse_elements f r (v :: acc)
              else if N.eqb c 93 then Parsed (VArray (rev (v :: acc))) r
              else Malformed
          | [] => Malformed
          end
      | OutOfFuel => OutOfFuel
      | Malformed => Malformed
      end
  end

with parse_members (fuel : nat) (s : jsstring)
  (acc : list (jsstring * any)) : parsed any :=
  match fuel with
  | O => OutOfFuel
  | S f =>
      match skip_ws s with
      | q :: r =>
          if N.eqb q 34 then
            match parse_chars r [] with
            | Some (key, rest) =>
                match skip_ws rest with
                | colon :: r1 =>
                    if N.eqb colon 58 then
                      match parse_value f r1 with
                      | Parsed v rest1 =>
                          match skip_ws rest1 with
                          | c :: r2 =>
                              if N.eqb c 44
                              then parse_members f r2 (set_property acc key v)
                              else if N.eqb c 125
                              then Parsed (VObject (set_property acc key v)) r2
                              else Malformed
                          | [] => Malformed
                          end
                      | OutOfFuel => OutOfFuel
                      | Malformed => Malformed
                      end
                    else Malformed
                | [] => Malformed
                end
            | None => Malformed
            end
          else Malformed
      | [] => Malformed
      end
  end.

(** [JSON.parse(text)]: one value, white space around it, nothing else; a
    SyntaxError otherwise. *)
Definition JSON_parse (text : jsstring) : completion any :=
  match parse_value (2 * length text + 1) text with
  | Parsed v rest =>
      match skip_ws rest with
      | [] => Normal v
      | _ :: _ => Throw SyntaxError
      end
  | _ => Throw SyntaxError
  end.

(* ===================================================================== *)
(** * The response wrapper: class OpenAIGenerateContentResponse *)
(* ===================================================================== *)

(** The wrapper holds the payload as it came ([data: any]). *)
Record OpenAIGenerateContentResponse := { data : any }.

(** The object literals the [candidates] getter builds. *)
Record ResponsePart := { part_text : any }.
Record ResponseContent := {
  content_role : jsstring;
  content_parts : list ResponsePart
}.
Record CitationMetadata := { citationSources : list any }.
Record Candidate := {
  index : any;
  content : ResponseContent;
  finishReason : any;
  citationMetadata : CitationMetadata
}.

Definition candidate_of (choice : any) : completion Candidate :=
  idx <- get choice (js "index") ;;
  message <- get choice (js "message") ;;
  txt <- get message (js "content") ;;
  reason <- get choice (js "finish_reason") ;;
  Normal {| index := idx;
            content := {| content_role := js "model";
                          content_parts := [{| part_text := txt |}] |};
            finishReason := reason;
            citationMetadata := {| citationSources := [] |} |}.

(** [get candidates()] *)
Definition candidates (self : OpenAIGenerateContentResponse)
  : completion (list Candidate) :=
  choices <- get (data self) (js "choices") ;;
  array_map choices candidate_of.

Record PromptFeedback := { blockReason : any; safetyRatings : list any }.

(** [get promptFeedback()] *)
Definition promptFeedback (self : OpenAIGenerateContentResponse)
  : PromptFeedback :=
  {| blockReason := VUndefined; safetyRatings := [] |}.

(** [get text()] *)
Definition text (self : OpenAIGenerateContentResponse) : completion any :=
  choices <- get (data self) (js "choices") ;;
  choice <- get_index choices 0 ;;
  message <- get choice (js "message") ;;
  get message (js "content").

(** [get functionCalls()], [get executableCode()],
    [get codeExecutionResult()] *)
Definition functionCalls (self : OpenAIGenerateContentResponse) : list any :=
  [].
Definition executableCode (self : OpenAIGenerateContentResponse) : jsstring :=
  [].
Definition codeExecutionResult (self : OpenAIGenerateContentResponse)
  : jsstring := [].

(** What an iterator's [next()] returns. *)
Record IteratorResult (A : Type) := { value : A; done : bool }.
Arguments value {A} _.
Arguments done {A} _.

(** The iterator object [[Symbol.iterator]()] returns: the closure over
    [self] and the counter [i]. *)
Record ViewIterator := {
  self : OpenAIGenerateContentResponse;
  i : N
}.

Definition Symbol_iterator (this : OpenAIGenerateContentResponse)
  : ViewIterator :=
  {| self := this; i := 0 |}.

(** [next()]: the test reads [i] before [i++] adds one. *)
Definition ViewIterator_next (it : ViewIterator)
  : IteratorResult OpenAIGenerateContentResponse * ViewIterator :=
  let it' := {| self := self it; i := N.succ (i it) |} in
  if N.eqb (i it) 0
  then ({| value := self it; done := false |}, it')
  else ({| value := self it; done := true |}, it').

(** A [for ... of] loop over the iterator: the values of the results that
    are not [done], up to the first that is.  [fuel] bounds the calls of
    [next()]. *)
Fixpoint for_of (fuel : nat) (it : ViewIterator)
  : option (list OpenAIGenerateContentResponse) :=
  match fuel with
  | O => None
  | S f =>
      let (r, it') := ViewIterator_next it in
      if done r then Some []
      else option_map (cons (value r)) (for_of f it')
  end.

(** The results of the first [n] calls of [next()]. *)
Fixpoint next_results (n : nat) (it : ViewIterator)
  : list (IteratorResult OpenAIGenerateContentResponse) :=
  match n with
  | O => []
  | S k =>
      let (r, it') := ViewIterator_next it in r :: next_results k it'
  end.

(* ===================================================================== *)
(** * The adapter: class OpenAICompatibleContentGenerator *)
(* ===================================================================== *)

(** The request side of [@google/genai] as the adapter reads it: of a
    [Part] only [text], which may be missing; of a [Content] its [role] and
    [parts], which may be missing. *)
Module genai.
Record Part := { text : option jsstring }.
Record Content := { role : option jsstring; parts : option (list Part) }.
(** [contents]: [contentsToParts] tells a string from everything else and
    takes everything else for a [Content[]]. *)
Inductive ContentListUnion :=
| Text (s : jsstring)
| Contents (cs : list Content).
End genai.

Record GenerateContentParameters := {
  contents : genai.ContentListUnion;
  generationConfig : any
}.

Record CountTokensParameters := { count_contents : genai.ContentListUnion }.
Record CountTokensResponse := { totalTokens : Z }.

Inductive ChatRole := user | assistant.
Record ChatMessage := { msg_role : ChatRole; msg_content : jsstring }.

(** The fields of the instance. *)
Record OpenAICompatibleContentGenerator := {
  endpoint : jsstring;
  model : jsstring;
  apiKey : jsstring
}.

(** [contentsToParts] *)
Definition contentsToParts (c : genai.ContentListUnion) : list genai.Content :=
  match c with
  | genai.Text s =>
      [{| genai.role := Some (js "user");
          genai.parts := Some [{| genai.text := Some s |}] |}]
  | genai.Contents cs => cs
  end.

(** [(content.parts ?? []).map((part) => part.text).join('')] *)
Definition parts_text (c : genai.Content) : jsstring :=
  join (map genai.text
          (match genai.parts c with Some ps => ps | None => [] end))
       [].

(** [convertToOpenAIMessages]: the loop pushes one message per content. *)
Definition convertToOpenAIMessages (cs : list genai.Content)
  : list ChatMessage :=
  fold_left
    (fun messages c =>
       let r :=
         match genai.role c with
         | Some name => if jsstring_eqb name (js "model")
                        then assistant else user
         | None => user
         end in
       messages ++ [{| msg_role := r; msg_content := parts_text c |}])
    cs [].

(** [Math.ceil] of a quotient of integers. *)
Definition Math_ceil (q : Q) : Z := Qceiling q.

(* ===================================================================== *)
(** * The transport *)
(* ===================================================================== *)

(** How an [async] call or an awaited operation settles. *)
Inductive Promise (A : Type) : Type :=
| Fulfilled (a : A)
| Rejected (e : exn).
Arguments Fulfilled {A} a.
Arguments Rejected {A} e.

(** The object handed to [JSON.stringify] for the request body. *)
Record RequestBody := {
  body_model : jsstring;
  body_messages : list ChatMessage;
  body_temperature : any;
  body_max_tokens : any;
  body_stream : bool
}.

Record Request := {
  url : jsstring;
  method : jsstring;
  headers : list (jsstring * jsstring);
  body : RequestBody
}.

(** A response: status line, and the body as the chunks its stream
    delivers, one per [read()]; [None] is a response without a body. *)
Record Response := {
  status : N;
  statusText : jsstring;
  response_body : option (list (list byte))
}.

(** [response.ok]: the status is in the range 200 to 299. *)
Definition ok (r : Response) : bool := in_range 200 299 (status r).

(** [await response.text()]: the whole body, UTF-8 decoded. *)
Definition Response_text (r : Response) : jsstring :=
  utf8_decode
    (match response_body r with Some chunks => concat chunks | None => [] end).

(** [await response.json()] *)
Definition Response_json (r : Response) : completion any :=
  JSON_parse (Response_text r).

(** The world outside the adapter: the responses the server will give to
    the requests to come, in order, and the requests sent so far. *)
Record World := {
  server : list Response;
  sent : list Request
}.

(** [await fetch(url, init)]: the request goes out and the next response
    comes back; with no server to answer, [fetch] rejects. *)
Definition fetch (req : Request) (w : World) : Promise Response * World :=
  match server w with
  | r :: rest => (Fulfilled r, {| server := rest; sent := sent w ++ [req] |})
  | [] => (Rejected TypeError, {| server := []; sent := sent w ++ [req] |})
  end.

(** [v?.k] *)
Definition optional_get (v : any) (k : jsstring) : any :=
  match v with
  | VObject fs => match lookup fs k with Some x => x | None => VUndefined end
  | _ => VUndefined
  end.

(** The request both entry points build. *)
Definition chat_request (this : OpenAICompatibleContentGenerator)
  (request : GenerateContentParameters) (streaming : bool) : Request :=
  let messages := convertToOpenAIMessages (contentsToParts (contents request)) in
  let config := generationConfig request in
  {| url := endpoint this ++ js "/chat/completions";
     method := js "POST";
     headers := [(js "Content-Type", js "application/json");
                 (js "Authorization", js "Bearer " ++ apiKey this)];
     body := {| body_model := model this;
                body_messages := messages;
                body_temperature := optional_get config (js "temperature");
                body_max_tokens := optional_get config (js "maxOutputTokens");
                body_stream := streaming |} |}.

(** The error of the [!response.ok] branch. *)
Definition fetch_failure (response : Response) : exn :=
  Error (js "Failed to fetch from local LLM: "
         ++ decimal (status response) ++ js " "
         ++ statusText response ++ js " "
         ++ Response_text response).

(** [generateContent] *)
Definition generateContent (this : OpenAICompatibleContentGenerator)
  (request : GenerateContentParameters) (w : World)
  : Promise OpenAIGenerateContentResponse * World :=
  let (fetched, w1) := fetch (chat_request this request false) w in
  match fetched with
  | Rejected e => (Rejected e, w1)
  | Fulfilled response =>
      if negb (ok response) then (Rejected (fetch_failure response), w1)
      else
        match Response_json response with
        | Normal payload => (Fulfilled {| data := payload |}, w1)
        | Throw e => (Rejected e, w1)
        end
  end.

(** [countTokens]: the text of every part of every content, joined with
    no separator.  The function is [async], awaits nothing and sends
    nothing: its promise is fulfilled with the count. *)
Definition countTokens_text (request : CountTokensParameters) : jsstring :=
  join (map (fun c => Some (parts_text c))
          (contentsToParts (count_contents request)))
       [].

(** [Math.ceil(text.length / 4)]: the quotient of an integer by four is a
    number the runtime represents exactly. *)
Definition token_estimate (request : CountTokensParameters) : Z :=
  let txt := countTokens_text request in
  Math_ceil (Z.of_nat (length txt) # 4).

Definition countTokens (this : OpenAICompatibleContentGenerator)
  (request : CountTokensParameters) (w : World)
  : Promise CountTokensResponse * World :=
  (Fulfilled {| totalTokens := token_estimate request |}, w).

(* ===================================================================== *)
(** * The streaming generator *)
(* ===================================================================== *)

(** [{ ...choice, message: choice.delta }] *)
Definition remap_choice (choice : any) : completion any :=
  delta <- get choice (js "delta") ;;
  Normal (VObject (set_property (own_properties choice) (js "message") delta)).

(** [{ ...data, choices: data.choices.map(...) }] *)
Definition remap (payload : any) : completion any :=
  choices <- get payload (js "choices") ;;
  mapped <- array_map choices remap_choice ;;
  Normal (VObject (set_property (own_properties payload) (js "choices")
                     (VArray mapped))).

(** How the generator's body leaves the [for] loop over the lines of a
    chunk before the lines run out: at a [yield] (with the lines still to
    visit), at the [return] of the sentinel, or at a throw. *)
Inductive leave : Type :=
| Yield (v : OpenAIGenerateContentResponse) (rest : list jsstring)
| Return
| Raise (e : exn).

Definition DATA_PREFIX : jsstring := js "data: ".
Definition DONE : jsstring := js "[DONE]".
Definition SEPARATOR : jsstring := [LF; LF].

(** [for (const line of lines) { ... }]; [None] when the loop visits every
    line and falls through. *)
Fixpoint for_lines (lines : list jsstring) : option leave :=
  match lines with
  | [] => None
  | line :: rest =>
      if startsWith line DATA_PREFIX then
        let json := substring line (length DATA_PREFIX) in
        if jsstring_eqb (trim json) DONE then Some Return
        else
          match JSON_parse json with
          | Throw e => Some (Raise e)
          | Normal payload =>
              match remap payload with
              | Throw e => Some (Raise e)
              | Normal remapped => Some (Yield {| data := remapped |} rest)
              end
          end
      else for_lines rest
  end.

(** [while (true) { ... }] from a [reader.read()] on: the chunks not yet
    read are [reader]; at the end of the stream [done] breaks the loop and
    the body returns. *)
Fixpoint while_true (reader : list (list byte)) : leave * list (list byte) :=
  match reader with
  | [] => (Return, [])
  | chunk_bytes :: reader' =>
      let chunk := TextDecoder_decode chunk_bytes in
      let lines := split chunk SEPARATOR in
      match for_lines lines with
      | Some l => (l, reader')
      | None => while_true reader'
      end
  end.

(** The generator object: the stream's reader (the chunks still unread),
    the lines of the current chunk still to visit, and whether the body has
    returned or thrown. *)
Record StreamGenerator := {
  reader : list (list byte);
  lines : list jsstring;
  completed : bool
}.

Definition finished (reader' : list (list byte)) : StreamGenerator :=
  {| reader := reader'; lines := []; completed := true |}.

(** [generator.next()]: run the body to its next [yield], to its end, or to
    a throw.  A completed generator answers [done] for ever. *)
Definition next (g : StreamGenerator)
  : Promise (IteratorResult (option OpenAIGenerateContentResponse))
    * StreamGenerator :=
  if completed g then (Fulfilled {| value := None; done := true |}, g)
  else
    let (l, reader') :=
      match for_lines (lines g) with
      | Some l => (l, reader g)
      | None => while_true (reader g)
      end in
    match l with
    | Yield v rest =>
        (Fulfilled {| value := Some v; done := false |},
         {| reader := reader'; lines := rest; completed := false |})
    | Return =>
        (Fulfilled {| value := None; done := true |}, finished reader')
    | Raise e => (Rejected e, finished reader')
    end.

(** [generateContentStream] *)
Definition generateContentStream (this : OpenAICompatibleContentGenerator)
  (request : GenerateContentParameters) (w : World)
  : Promise StreamGenerator * World :=
  let (fetched, w1) := fetch (chat_request this request true) w in
  match fetched with
  | Rejected e => (Rejected e, w1)
  | Fulfilled response =>
      if negb (ok response) then (Rejected (fetch_failure response), w1)
      else
        match response_body response with
        | None => (Rejected (Error (js "No response body")), w1)
        | Some stream =>
            (Fulfilled {| reader := stream; lines := []; completed := false |},
             w1)
        end
  end.

(** [embedContent] is not [async]: its [throw] leaves the call itself. *)
Definition embedContent (this : OpenAICompatibleContentGenerator)
  (request : any) (w : World) : completion (Promise any) * World :=
  (Throw (Error (js "embedContent not supported")), w).

(** A consumer, [for await (const v of generator)]: the views yielded, and
    the error if the sequence ended in one.  [fuel] bounds the calls of
    [next()]. *)
Fixpoint for_await (fuel : nat) (g : StreamGenerator)
  : option (list OpenAIGenerateContentResponse * option exn) :=
  match fuel with
  | O => None
  | S f =>
      match next g with
      | (Rejected e, _) => Some ([], Some e)
      | (Fulfilled r, g') =>
          match done r, value r with
          | false, Some v =>
              match for_await f g' with
              | Some (vs, e) => Some (v :: vs, e)
              | None => None
              end
          | _, _ => Some ([], None)
          end
      end
  end.

(** The lines of one read: [decoder.decode(value).split('\n\n')]. *)
Definition chunk_lines (chunk_bytes : list byte) : list jsstring :=
  split (TextDecoder_decode chunk_bytes) SEPARATOR.

(** The lines a generator may still visit: a [yield] uses up at least one
    of them, so this bounds the calls of [next()] a consumer needs. *)
Definition pending_lines (g : StreamGenerator) : nat :=
  length (lines g) + list_sum (map (fun c => length (chunk_lines c)) (reader g)).

(** The generator after [n] more calls of [next()]. *)
Fixpoint after (n : nat) (g : StreamGenerator) : StreamGenerator :=
  match n with
  | O => g
  | S k => after k (snd (next g))
  end.

(* ===================================================================== *)
(** * Vocabulary of the properties *)
(* ===================================================================== *)

(** A parse result that did not run out of fuel and, when it read a value,
    used up at least one code unit of [s]. *)
Definition consumes (s : jsstring) (r : parsed any) : Prop :=
  match r with
  | OutOfFuel => False
  | Malformed => True
  | Parsed _ rest => length rest < length s
  end.

(** The segments of a string, with the separator between them. *)
Fixpoint intercalate (sep : jsstring) (xs : list jsstring) : jsstring :=
  match xs with
  | [] => []
  | x :: rest =>
      match rest with
      | [] => x
      | _ :: _ => x ++ sep ++ intercalate sep rest
      end
  end.

(** What a part contributes to the text of its content: its [text], or
    nothing when it has none. *)
Definition part_contribution (p : genai.Part) : jsstring :=
  match genai.text p with
  | Some s => s
  | None => []
  end.

Definition parts_or_empty (c : genai.Content) : list genai.Part :=
  match genai.parts c with
  | Some ps => ps
  | None => []
  end.

(** The part texts of one content, in order, one after the other. *)
Definition concatenated_text (c : genai.Content) : jsstring :=
  concat (map part_contribution (parts_or_empty c)).

(** The message the loop of [convertToOpenAIMessages] pushes for one
    content. *)
Definition message_of (c : genai.Content) : ChatMessage :=
  {| msg_role := match genai.role c with
                 | Some name =>
                     if jsstring_eqb name (js "model") then assistant else user
                 | None => user
                 end;
     msg_content := parts_text c |}.

(** The number of code units in all part texts of all contents. *)
Definition total_text_length (c : genai.ContentListUnion) : nat :=
  list_sum (map (fun e => list_sum (map (fun p => length (part_contribution p))
                                      (parts_or_empty e)))
              (contentsToParts c)).

(** [v.k] where reading cannot throw: the own property or [undefined]. *)
Definition field_of (v : any) (k : jsstring) : any := optional_get v k.

(** Neither [undefined] nor [null]: a property read on it does not throw. *)
Definition readable (v : any) : bool :=
  match v with
  | VUndefined | VNull => false
  | _ => true
  end.

(** The candidate the [candidates] getter builds for a choice that has a
    message. *)
Definition candidate_for (choice : any) : Candidate :=
  {| index := field_of choice (js "index");
     content :=
       {| content_role := js "model";
          content_parts :=
            [{| part_text :=
                  field_of (field_of choice (js "message")) (js "content") |}] |};
     finishReason := field_of choice (js "finish_reason");
     citationMetadata := {| citationSources := [] |} |}.

(** The text the specification gives a candidate's part: the content of the
    choice's message, or the empty string when the message has none. *)
Definition content_or_empty (choice : any) : any :=
  match field_of choice (js "message") with
  | VObject fs =>
      match lookup fs (js "content") with
      | Some x => x
      | None => VString []
      end
  | _ => VString []
  end.

(** A line is the sentinel when it has the prefix and what follows it
    trims to [[DONE]]. *)
Definition is_sentinel (line : jsstring) : bool :=
  startsWith line DATA_PREFIX
  && jsstring_eqb (trim (substring line (length DATA_PREFIX))) DONE.

(** A generator that has not completed. *)
Definition running (r : list (list byte)) (ls : list jsstring)
  : StreamGenerator :=
  {| reader := r; lines := ls; completed := false |}.

(** The three frames of a short stream, and the views of its two events:
    every choice carries its [delta] a second time as [message]. *)
Definition frame_He : list byte :=
  bq "data: {'choices':[{'index':0,'delta':{'content':'He'},'finish_reason':null}]}"
  ++ [x0a; x0a].

Definition frame_llo : list byte :=
  bq "data: {'choices':[{'index':0,'delta':{'content':'llo'},'finish_reason':'stop'}]}"
  ++ [x0a; x0a].

Definition frame_DONE : list byte := bytes "data: [DONE]" ++ [x0a; x0a].

Definition hello_stream : list (list byte) := [frame_He; frame_llo; frame_DONE].

Definition delta_view (content_text : jsstring) (finish_reason : any)
  : OpenAIGenerateContentResponse :=
  {| data :=
       VObject
         [(js "choices",
           VArray
             [VObject
                [(js "index", VNumber (js "0"));
                 (js "delta", VObject [(js "content", VString content_text)]);
                 (js "finish_reason", finish_reason);
                 (js "message", VObject [(js "content", VString content_text)])
                ]])] |}.

Definition view_He : OpenAIGenerateContentResponse := delta_view (js "He") VNull.
Definition view_llo : OpenAIGenerateContentResponse :=
  delta_view (js "llo") (VString (js "stop")).

Definition started (stream : list (list byte)) : StreamGenerator :=
  {| reader := stream; lines := []; completed := false |}.

Definition finished_result
  : Promise (IteratorResult (option OpenAIGenerateContentResponse)) :=
  Fulfilled {| value := None; done := true |}.

Definition yielded (v : OpenAIGenerateContentResponse)
  : Promise (IteratorResult (option OpenAIGenerateContentResponse)) :=
  Fulfilled {| value := Some v; done := false |}.

(** The same bytes as [hello_stream], cut inside the second event: the
    first read ends after the first two letters of its content. *)
Definition straddle_first_read : list byte :=
  frame_He ++ bq "data: {'choices':[{'index':0,'delta':{'content':'ll".

Definition straddle_second_read : list byte :=
  bq "o'},'finish_reason':'stop'}]}" ++ [x0a; x0a].

Definition straddled_stream : list (list byte) :=
  [straddle_first_read; straddle_second_read; frame_DONE].

(** A completion payload whose only choice has a message without
    [content]. *)
Definition payload_without_content : any :=
  VObject
    [(js "choices",
      VArray
        [VObject [(js "index", VNumber (js "0"));
                  (js "message", VObject []);
                  (js "finish_reason", VString (js "stop"))]])].

(** A completion payload whose only choice has no [message] at all. *)
Definition payload_without_message : any :=
  VObject
    [(js "choices",
      VArray
        [VObject [(js "index", VNumber (js "0"));
                  (js "finish_reason", VString (js "stop"))]])].

(** An internal server error with a short body. *)
Definition boom_response : Response :=
  {| status := 500;
     statusText := js "Internal Server Error";
     response_body := Some [bytes "boom"] |}.

(* ===================================================================== *)
(** * Vocabulary of the further properties *)
(* ===================================================================== *)


Definition is_object (v : any) : bool :=
  match v with
  | VObject _ => true
  | _ => false
  end.

Definition is_array (v : any) : bool :=
  match v with
  | VArray _ => true
  | _ => false
  end.

(** The candidate of a streamed choice, read from its [delta]. *)
Definition delta_candidate (choice : any) : Candidate :=
  {| index := field_of choice (js "index");
     content :=
       {| content_role := js "model";
          content_parts :=
            [{| part_text :=
                  field_of (field_of choice (js "delta")) (js "content") |}] |};
     finishReason := field_of choice (js "finish_reason");
     citationMetadata := {| citationSources := [] |} |}.

(** A server-sent event as the server writes it: the prefix, the payload
    and the blank line. *)
Definition frame (payload : jsstring) : jsstring :=
  DATA_PREFIX ++ payload ++ SEPARATOR.

(** No line feed in the text. *)
Definition no_LF (s : jsstring) : bool :=
  forallb (fun u => negb (N.eqb u LF)) s.


(** The first byte of a character of two to four bytes, and a byte that
    can only continue one. *)
Definition is_lead_byte (b : byte) : bool := in_range 194 244 (Byte.to_N b).
Definition is_continuation_byte (b : byte) : bool :=
  in_range 128 191 (Byte.to_N b).

(** The decoder states that arise: a pending sequence never expects a byte
    above 191. *)
Definition utf8_expected (st : option utf8_pending) : Prop :=
  match st with
  | None => True
  | Some p => (upper_boundary p <= 191)%N
  end.

(** The choice the generator hands on: the choice's own properties, and
    its [delta] under [message]. *)
Definition with_message (choice : any) : any :=
  VObject (set_property (own_properties choice) (js "message")
             (field_of choice (js "delta"))).

(** A line with the prefix, and the line of an event. *)
Definition has_prefix (line : jsstring) : bool := startsWith line DATA_PREFIX.

Definition data_line (payload : jsstring) : jsstring := DATA_PREFIX ++ payload.

(** All lines a generator may still visit, in order: those of the current
    chunk, then those of the chunks still unread. *)
Definition lines_ahead (r : list (list byte)) (ls : list jsstring)
  : list jsstring :=
  ls ++ flat_map chunk_lines r.

(** A way to leave the loop that ends the sequence. *)
Definition ends_sequence (l : leave) : Prop :=
  match l with
  | Yield _ _ => False
  | Return | Raise _ => True
  end.

(* ===================================================================== *)
(** * Properties of the platform model *)
(* ===================================================================== *)

(** ** JSON.parse never runs out of fuel

    Every sub-parser that reads something leaves fewer code units than it
    was given, so the fuel [JSON_parse] starts with is never used up: a
    [SyntaxError] of the model is always a malformed text. *)

Lemma skip_ws_length (s : jsstring) : length (skip_ws s) <= length s.
Proof.
  induction s as [|u s IH]; simpl; [lia|].
  destruct (is_json_ws u); simpl; lia.
Qed.

Lemma parse_chars_length (s : jsstring) :
  forall acc str rest,
    parse_chars s acc = Some (str, rest) -> length rest < length s.
Proof.
  remember (length s) as n eqn:Hn. revert s Hn.
  induction n as [n IH] using lt_wf_ind. intros s Hn acc str rest H. subst n.
  assert (IH' : forall s' acc' str' rest', length s' < length s ->
            parse_chars s' acc' = Some (str', rest') -> length rest' < length s').
  { intros s' acc' str' rest' L E. exact (IH _ L s' eq_refl _ _ _ E). }
  clear IH.
  destruct s as [|u s1]; simpl in H; [discriminate|].
  destruct (N.eqb u 34).
  { inversion H; subst; simpl; lia. }
  destruct (N.eqb u 92).
  - destruct s1 as [|e s2]; [discriminate|].
    destruct (N.eqb e 117).
    + destruct s2 as [|a [|b [|c [|d s3]]]]; try discriminate.
      destruct (hex4 a b c d); [|discriminate].
      apply IH' in H; simpl in *; lia.
    + destruct (simple_escape e); [|discriminate].
      apply IH' in H; simpl in *; lia.
  - destruct (N.ltb u 32); [discriminate|].
    apply IH' in H; simpl in *; lia.
Qed.

Lemma take_digits_length (s : jsstring) :
  forall ds rest, take_digits s = (ds, rest) ->
    length ds + length rest = length s.
Proof.
  induction s as [|u s IH]; simpl; intros ds rest H.
  - inversion H; reflexivity.
  - destruct (is_digit u).
    + destruct (take_digits s) as [ds' rest'] eqn:E.
      inversion H; subst. specialize (IH _ _ eq_refl). simpl; lia.
    + inversion H; subst; reflexivity.
Qed.

Lemma parse_int_length s i rest :
  parse_int s = Some (i, rest) -> length rest < length s.
Proof.
  unfold parse_int. destruct s as [|u s']; [discriminate|].
  destruct (N.eqb u 48).
  { intros H; inversion H; subst; simpl; lia. }
  destruct (in_range 49 57 u) eqn:R; [|discriminate].
  intros H. inversion H as [H1]. clear H.
  simpl in H1.
  assert (D : is_digit u = true).
  { unfold is_digit, in_range in *. apply andb_true_iff in R as [A B].
    apply N.leb_le in A, B. apply andb_true_iff; split; apply N.leb_le; lia. }
  rewrite D in H1. destruct (take_digits s') as [ds r] eqn:E.
  inversion H1; subst. apply take_digits_length in E. simpl; lia.
Qed.

Lemma parse_frac_length s f rest :
  parse_frac s = Some (f, rest) -> length rest <= length s.
Proof.
  unfold parse_frac. destruct s as [|u s'].
  { intros H; inversion H; simpl; lia. }
  destruct (N.eqb u 46).
  - destruct (take_digits s') as [ds r] eqn:E.
    apply take_digits_length in E.
    destruct ds; [discriminate|]. intros H; inversion H; subst; simpl in *; lia.
  - intros H; inversion H; subst; simpl; lia.
Qed.

Lemma parse_exp_length s e rest :
  parse_exp s = Some (e, rest) -> length rest <= length s.
Proof.
  unfold parse_exp. destruct s as [|u s'].
  { intros H; inversion H; simpl; lia. }
  destruct (N.eqb u 101 || N.eqb u 69).
  - destruct s' as [|g s''].
    + simpl. discriminate.
    + destruct (N.eqb g 43 || N.eqb g 45).
      * destruct (take_digits s'') as [ds r] eqn:E.
        apply take_digits_length in E.
        destruct ds; [discriminate|]. intros H; inversion H; subst; simpl in *; lia.
      * destruct (take_digits (g :: s'')) as [ds r] eqn:E.
        apply take_digits_length in E.
        destruct ds; [discriminate|]. intros H; inversion H; subst; simpl in *; lia.
  - intros H; inversion H; subst; simpl; lia.
Qed.

Lemma parse_number_length s lit rest :
  parse_number s = Some (lit, rest) -> length rest < length s.
Proof.
  unfold parse_number.
  set (m := match s with
            | [] => ([], [])
            | u :: s' => if N.eqb u 45 then ([u], s') else ([], s)
            end).
  assert (Hm : length (snd m) <= length s).
  { subst m. destruct s as [|u s']; simpl; [lia|].
    destruct (N.eqb u 45); simpl; lia. }
  destruct m as [minus s0]. simpl in Hm.
  destruct (parse_int s0) as [[i s1]|] eqn:Ei; [|discriminate].
  destruct (parse_frac s1) as [[f s2]|] eqn:Ef; [|discriminate].
  destruct (parse_exp s2) as [[e s3]|] eqn:Ee; [|discriminate].
  intros H; inversion H; subst.
  apply parse_int_length in Ei. apply parse_frac_length in Ef.
  apply parse_exp_length in Ee. lia.
Qed.

Lemma parse_value_unfold f s :
  parse_value (S f) s =
      match skip_ws s with
      | [] => Malformed
      | u :: r =>
          if N.eqb u 123 then
            match skip_ws r with
            | c :: r' =>
                if N.eqb c 125 then Parsed (VObject []) r'
                else parse_members f (c :: r') []
            | [] => Malformed
            end
          else if N.eqb u 91 then
            match skip_ws r with
            | c :: r' =>
                if N.eqb c 93 then Parsed (VArray []) r'
                else parse_elements f (c :: r') []
            | [] => Malformed
            end
          else if N.eqb u 34 then
            match parse_chars r [] with
            | Some (str, rest) => Parsed (VString str) rest
            | None => Malformed
            end
          else if startsWith (u :: r) (js "true") then
            Parsed (VBool true) (skipn 4 (u :: r))
          else if startsWith (u :: r) (js "false") then
            Parsed (VBool false) (skipn 5 (u :: r))
          else if startsWith (u :: r) (js "null") then
            Parsed VNull (skipn 4 (u :: r))
          else
            match parse_number (u :: r) with
            | Some (lit, rest) => Parsed (VNumber lit) rest
            | None => Malformed
            end
      end.
Proof. reflexivity. Qed.

Lemma parse_elements_unfold f s acc :
  parse_elements (S f) s acc =
      match parse_value f s with
      | Parsed v rest =>
          match skip_ws rest with
          | c :: r =>
              if N.eqb c 44 then parse_elements f r (v :: acc)
              else if N.eqb c 93 then Parsed (VArray (rev (v :: acc))) r
              else Malformed
          | [] => Malformed
          end
      | OutOfFuel => OutOfFuel
      | Malformed => Malformed
      end.
Proof. reflexivity. Qed.

Lemma parse_members_unfold f s acc :
  parse_members (S f) s acc =
      match skip_ws s with
      | q :: r =>
          if N.eqb q 34 then
            match parse_chars r [] with
            | Some (key, rest) =>
                match skip_ws rest with
                | colon :: r1 =>
                    if N.eqb colon 58 then
                      match parse_value f r1 with
                      | Parsed v rest1 =>
                          match skip_ws rest1 with
                          | c :: r2 =>
                              if N.eqb c 44
                              then parse_members f r2 (set_property acc key v)
                              else if N.eqb c 125
                              then Parsed (VObject (set_property acc key v)) r2
                              else Malformed
                          | [] => Malformed
                          end
                      | OutOfFuel => OutOfFuel
                      | Malformed => Malformed
                      end
                    else Malformed
                | [] => Malformed
                end
            | None => Malformed
            end
          else Malformed
      | [] => Malformed
      end.
Proof. reflexivity. Qed.

Ltac ws_fact s :=
  let H := fresh "W" in pose proof (skip_ws_length s) as H.

Lemma parse_fuel_enough (f : nat) :
  (forall s, 2 * length s < f -> consumes s (parse_value f s)) /\
  (forall s acc, 2 * length s + 1 < f -> consumes s (parse_elements f s acc)) /\
  (forall s acc, 2 * length s + 1 < f -> consumes s (parse_members f s acc)).
Proof.
  induction f as [|f (IHv & IHe & IHm)].
  { repeat split; intros; lia. }
  repeat split.
  - intros s L. rewrite parse_value_unfold.
    ws_fact s. destruct (skip_ws s) as [|u r] eqn:E; [exact I|].
    simpl in W.
    destruct (N.eqb u 123).
    { ws_fact r. destruct (skip_ws r) as [|c r'] eqn:E'; simpl; [exact I|].
      simpl in *. destruct (N.eqb c 125); simpl; [lia|].
      specialize (IHm (c :: r') []). simpl in IHm.
      destruct (parse_members f (c :: r') []); simpl in *; try (apply IHm; lia).
      assert (length rest < S (length r')) by (apply IHm; lia). lia. }
    destruct (N.eqb u 91).
    { ws_fact r. destruct (skip_ws r) as [|c r'] eqn:E'; simpl; [exact I|].
      simpl in *. destruct (N.eqb c 93); simpl; [lia|].
      specialize (IHe (c :: r') []). simpl in IHe.
      destruct (parse_elements f (c :: r') []); simpl in *; try (apply IHe; lia).
      assert (length rest < S (length r')) by (apply IHe; lia). lia. }
    destruct (N.eqb u 34).
    { destruct (parse_chars r []) as [[str rest]|] eqn:P; simpl; [|exact I].
      apply parse_chars_length in P. lia. }
    destruct (startsWith (u :: r) (js "true")).
    { unfold consumes. rewrite length_skipn. simpl length. lia. }
    destruct (startsWith (u :: r) (js "false")).
    { unfold consumes. rewrite length_skipn. simpl length. lia. }
    destruct (startsWith (u :: r) (js "null")).
    { unfold consumes. rewrite length_skipn. simpl length. lia. }
    destruct (parse_number (u :: r)) as [[lit rest]|] eqn:P; simpl; [|exact I].
    apply parse_number_length in P. simpl in P. lia.
  - intros s acc L. rewrite parse_elements_unfold.
    specialize (IHv s). 
    destruct (parse_value f s) as [| |v rest]; simpl in *; try (apply IHv; lia).
    assert (length rest < length s) by (apply IHv; lia).
    ws_fact rest. destruct (skip_ws rest) as [|c r] eqn:E; simpl; [exact I|].
    simpl in *. destruct (N.eqb c 44).
    { specialize (IHe r (v :: acc)).
      destruct (parse_elements f r (v :: acc)); simpl in *; try (apply IHe; lia).
      assert (length rest0 < length r) by (apply IHe; lia). lia. }
    destruct (N.eqb c 93); simpl; [lia|exact I].
  - intros s acc L. rewrite parse_members_unfold.
    ws_fact s. destruct (skip_ws s) as [|q r] eqn:E; simpl; [exact I|].
    simpl in *. destruct (N.eqb q 34); simpl; [|exact I].
    destruct (parse_chars r []) as [[key rest]|] eqn:P; simpl; [|exact I].
    apply parse_chars_length in P.
    ws_fact rest. destruct (skip_ws rest) as [|colon r1] eqn:E1; simpl; [exact I|].
    simpl in *. destruct (N.eqb colon 58); simpl; [|exact I].
    specialize (IHv r1).
    destruct (parse_value f r1) as [| |v rest1]; simpl in *; try (apply IHv; lia).
    assert (length rest1 < length r1) by (apply IHv; lia).
    ws_fact rest1. destruct (skip_ws rest1) as [|c r2] eqn:E2; simpl; [exact I|].
    simpl in *. destruct (N.eqb c 44).
    { specialize (IHm r2 (set_property acc key v)).
      destruct (parse_members f r2 (set_property acc key v)); simpl in *;
        try (apply IHm; lia).
      assert (length rest0 < length r2) by (apply IHm; lia). lia. }
    destruct (N.eqb c 125); simpl; [lia|exact I].
Qed.

Lemma parse_value_fuel (s : jsstring) :
  parse_value (2 * length s + 1) s <> OutOfFuel.
Proof.
  intros E. pose proof (proj1 (parse_fuel_enough (2 * length s + 1)) s) as H.
  rewrite E in H. simpl in H. apply H. lia.
Qed.

(** ** Strings *)

Lemma jsstring_eqb_eq (a b : jsstring) : jsstring_eqb a b = true <-> a = b.
Proof.
  revert b. induction a as [|x a IH]; intros [|y b]; simpl; split;
    try discriminate; try reflexivity.
  - intros H. apply andb_true_iff in H as [Hx Hab].
    apply N.eqb_eq in Hx. apply IH in Hab. congruence.
  - intros H. inversion H; subst. rewrite N.eqb_refl. simpl. now apply IH.
Qed.

Lemma jsstring_eqb_neq (a b : jsstring) : jsstring_eqb a b = false <-> a <> b.
Proof.
  split.
  - intros H E. apply jsstring_eqb_eq in E. congruence.
  - intros H. destruct (jsstring_eqb a b) eqn:E; [|reflexivity].
    apply jsstring_eqb_eq in E. contradiction.
Qed.

Lemma startsWith_app (p t : jsstring) : startsWith (p ++ t) p = true.
Proof.
  induction p as [|y p IH]; simpl; [reflexivity|].
  now rewrite N.eqb_refl.
Qed.

Lemma startsWith_prefix (s p : jsstring) :
  startsWith s p = true <-> exists t, s = p ++ t.
Proof.
  split.
  - revert s. induction p as [|y p IH]; intros s H.
    + exists s. reflexivity.
    + destruct s as [|x s]; simpl in H; [discriminate|].
      apply andb_true_iff in H as [Hx Hs]. apply N.eqb_eq in Hx.
      destruct (IH _ Hs) as [t ->]. exists t. now subst.
  - intros [t ->]. apply startsWith_app.
Qed.

Lemma includes_here (p t : jsstring) : includes (p ++ t) p = true.
Proof.
  destruct (p ++ t) eqn:E; simpl; rewrite <- E, startsWith_app; reflexivity.
Qed.

Lemma includes_after (a s p : jsstring) :
  includes s p = true -> includes (a ++ s) p = true.
Proof.
  intros H. induction a as [|x a IH]; simpl; [exact H|].
  rewrite IH. apply orb_true_r.
Qed.

(** [join] with the empty separator puts the elements one after the other,
    an [undefined] one adding nothing. *)
Lemma join_from_empty (xs : list (option jsstring)) :
  forall k R,
    join_from [] k xs R
    = R ++ concat (map (fun x => match x with Some s => s | None => [] end) xs).
Proof.
  induction xs as [|x xs IH]; intros k R; simpl.
  - now rewrite app_nil_r.
  - rewrite IH. destruct k; rewrite ?app_nil_r, <- app_assoc; reflexivity.
Qed.

Lemma join_empty (xs : list (option jsstring)) :
  join xs [] = concat (map (fun x => match x with Some s => s | None => [] end) xs).
Proof. unfold join. now rewrite join_from_empty. Qed.

(** ** split and join *)

Lemma join_from_strings (sep : jsstring) (xs : list jsstring) :
  forall k R,
    join_from sep (S k) (map Some xs) R
    = R ++ concat (map (fun x => sep ++ x) xs).
Proof.
  induction xs as [|x xs IH]; intros k R; simpl.
  - now rewrite app_nil_r.
  - rewrite IH, <- !app_assoc. reflexivity.
Qed.

Lemma intercalate_cons (sep x : jsstring) (xs : list jsstring) :
  intercalate sep (x :: xs) = x ++ concat (map (fun y => sep ++ y) xs).
Proof.
  revert x. induction xs as [|y xs IH]; intros x.
  - simpl. now rewrite app_nil_r.
  - change (intercalate sep (x :: y :: xs))
      with (x ++ sep ++ intercalate sep (y :: xs)).
    rewrite IH. simpl. now rewrite <- app_assoc.
Qed.

Lemma join_strings (sep : jsstring) (xs : list jsstring) :
  join (map Some xs) sep = intercalate sep xs.
Proof.
  destruct xs as [|x xs]; [reflexivity|].
  unfold join. simpl map. simpl join_from.
  rewrite join_from_strings, intercalate_cons. reflexivity.
Qed.

Lemma split_from_not_nil (sep s : jsstring) :
  forall k cur, split_from sep s k cur <> [].
Proof.
  induction s as [|u s IH]; intros k cur; simpl; [discriminate|].
  destruct k; [|apply IH].
  destruct (startsWith (u :: s) sep); [discriminate|apply IH].
Qed.

Lemma split_from_cons (sep : jsstring) (u : code_unit) (s : jsstring)
  (cur : jsstring) :
  split_from sep (u :: s) 0 cur
  = if startsWith (u :: s) sep
    then rev cur :: split_from sep s (length sep - 1) []
    else split_from sep s 0 (u :: cur).
Proof. reflexivity. Qed.

Lemma intercalate_split_from (sep s : jsstring) :
  sep <> [] ->
  forall k cur,
    k <= length s ->
    intercalate sep (split_from sep s k cur) = rev cur ++ skipn k s.
Proof.
  intros Hsep. induction s as [|u s IH]; intros k cur Hk.
  - destruct k; [|simpl in Hk; lia]. simpl. now rewrite app_nil_r.
  - destruct k as [|k].
    + rewrite split_from_cons.
      destruct (startsWith (u :: s) sep) eqn:E.
      * apply startsWith_prefix in E as [t Ht].
        destruct sep as [|y sep']; [contradiction|].
        simpl in Ht. inversion Ht; subst.
        rewrite intercalate_cons.
        pose proof (@split_from_not_nil (y :: sep') (sep' ++ t)
                      (length (y :: sep') - 1) []) as Hne.
        destruct (split_from (y :: sep') (sep' ++ t)
                    (length (y :: sep') - 1) []) as [|x xs] eqn:Es;
          [contradiction|].
        assert (Hx : intercalate (y :: sep') (x :: xs) = t).
        { rewrite <- Es, IH.
          - replace (length (y :: sep') - 1) with (length sep')
              by (simpl; lia).
            rewrite skipn_app, skipn_all, Nat.sub_diag. reflexivity.
          - simpl length. rewrite length_app. lia. }
        rewrite intercalate_cons in Hx. rewrite <- Hx.
        simpl. rewrite <- !app_assoc. reflexivity.
      * rewrite IH by lia. simpl. now rewrite <- app_assoc.
    + simpl. apply IH. simpl in Hk. lia.
Qed.

(** The segments of [s.split(sep)], joined with [sep] again, are [s]. *)
Lemma join_split (s sep : jsstring) :
  sep <> [] -> join (map Some (split s sep)) sep = s.
Proof.
  intros Hsep. rewrite join_strings. unfold split.
  now rewrite intercalate_split_from by (assumption || lia).
Qed.

(** ** The platform model at work *)

Example split_on_separator :
  split (js "a--b----c--") (js "--") = [js "a"; js "b"; []; js "c"; []] /\
  split [] (js "--") = [[]] /\
  split (js "---") (js "--") = [[]; js "-"] /\
  split (js "data: x" ++ [LF; LF] ++ js "data: y" ++ [LF]) SEPARATOR
  = [js "data: x"; js "data: y" ++ [LF]].
Proof. repeat split; reflexivity. Qed.

Example trim_both_ends :
  trim ([9; 32; 160] ++ js "[DONE]" ++ [13; 10; 8233])%N = js "[DONE]" /\
  trim (js " a b ") = js "a b" /\
  trim (js "   ") = [].
Proof. repeat split; reflexivity. Qed.

Example JSON_parse_accepts :
  JSON_parse (jq " [1, -2.5e+10, true, null, 'a\u0041\n', {'k':[ ]}] ")
  = Normal (VArray [VNumber (js "1"); VNumber (js "-2.5e+10"); VBool true;
                    VNull; VString [97; 65; 10]%N;
                    VObject [(js "k", VArray [])]]) /\
  JSON_parse (jq "{'a':1,'b':2,'a':3}")
  = Normal (VObject [(js "a", VNumber (js "3")); (js "b", VNumber (js "2"))]).
Proof. split; vm_compute; reflexivity. Qed.

Example JSON_parse_rejects :
  map JSON_parse
    [ []; jq "{'a':1,}"; jq "[1,]"; jq "01"; jq "1."; jq "+1"; jq "tru";
      jq "{'a' 1}"; jq "'a"; jq "'\x'"; jq "1 2"; jq "{'a':{'b':'c" ]
  = repeat (Throw SyntaxError) 12.
Proof. vm_compute. reflexivity. Qed.

Example TextDecoder_decode_utf8 :
  TextDecoder_decode [x48; xc3; xa9; xe2; x82; xac; xf0; x9f; x98; x80]
  = [72; 233; 8364; 55357; 56832]%N /\
  TextDecoder_decode [xef; xbb; xbf; x41; xc3] = [65; 65533]%N /\
  TextDecoder_decode [xe2; x41; xed; xa0; x80]
  = [65533; 65; 65533; 65533; 65533]%N.
Proof. repeat split; reflexivity. Qed.

(** ** TextDecoder on ASCII *)

Lemma utf8_run_ascii (bs : list N) :
  Forall (fun b => (b < 128)%N) bs -> utf8_run None bs = bs.
Proof.
  induction 1 as [|b bs Hb _ IH]; [reflexivity|].
  simpl. unfold utf8_lead.
  assert (E : N.leb b 127 = true) by (apply N.leb_le; lia).
  rewrite E. simpl. now rewrite IH.
Qed.

Lemma utf16_units_ascii (bs : list N) :
  Forall (fun b => (b < 128)%N) bs -> flat_map utf16_units bs = bs.
Proof.
  induction 1 as [|b bs Hb _ IH]; [reflexivity|].
  simpl. unfold utf16_units at 1.
  assert (E : N.ltb b 65536 = true) by (apply N.ltb_lt; lia).
  rewrite E. simpl. now rewrite IH.
Qed.

(** Bytes below 128 decode to themselves, one code unit per byte. *)
Lemma TextDecoder_decode_ascii (input : list byte) :
  Forall (fun b => (Byte.to_N b < 128)%N) input ->
  TextDecoder_decode input = map Byte.to_N input.
Proof.
  intros H. unfold TextDecoder_decode, utf8_decode.
  assert (H' : Forall (fun b => (b < 128)%N) (map Byte.to_N input)).
  { apply Forall_map. exact H. }
  rewrite utf8_run_ascii by exact H'.
  assert (Hs : strip_bom (map Byte.to_N input) = map Byte.to_N input).
  { destruct H' as [|b bs Hb _]; [reflexivity|]. simpl.
    unfold BOM. destruct (N.eqb b 65279) eqn:E; [|reflexivity].
    apply N.eqb_eq in E. lia. }
  rewrite Hs. now apply utf16_units_ascii.
Qed.

(* ===================================================================== *)
(** * Properties of the message converter and the token estimator *)
(* ===================================================================== *)

(** ** The message converter *)

Lemma parts_text_concatenated (c : genai.Content) :
  parts_text c = concatenated_text c.
Proof.
  unfold parts_text, concatenated_text, parts_or_empty, part_contribution.
  rewrite join_empty, map_map. reflexivity.
Qed.

Lemma convert_from (cs : list genai.Content) :
  forall acc,
    fold_left (fun messages c => messages ++ [message_of c]) cs acc
    = acc ++ map message_of cs.
Proof.
  induction cs as [|c cs IH]; intros acc; simpl.
  - now rewrite app_nil_r.
  - rewrite IH, <- app_assoc. reflexivity.
Qed.

Lemma convertToOpenAIMessages_map (cs : list genai.Content) :
  convertToOpenAIMessages cs = map message_of cs.
Proof. unfold convertToOpenAIMessages. apply (convert_from cs []). Qed.

(** C3. The message converter gives one chat message per content entry, in
    the order of the entries: the message at position [i] comes from the
    entry at position [i], its role is [assistant] when the entry's role is
    [model] and [user] for every other role (a missing one too), and its
    content is the entry's part texts one after the other, a part without
    text adding the empty string. *)
Theorem convertToOpenAIMessages_one_per_entry (cs : list genai.Content) :
  length (convertToOpenAIMessages cs) = length cs /\
  forall (i : nat) (c : genai.Content),
    nth_error cs i = Some c ->
    exists m : ChatMessage,
      nth_error (convertToOpenAIMessages cs) i = Some m /\
      (genai.role c = Some (js "model") -> msg_role m = assistant) /\
      (genai.role c <> Some (js "model") -> msg_role m = user) /\
      msg_content m = concat (map part_contribution (parts_or_empty c)).
Proof.
  rewrite convertToOpenAIMessages_map. split; [apply length_map|].
  intros i c Hc. exists (message_of c). split.
  { rewrite nth_error_map, Hc. reflexivity. }
  unfold message_of; simpl. repeat split.
  - intros ->. reflexivity.
  - intros Hr. destruct (genai.role c) as [name|]; [|reflexivity].
    destruct (jsstring_eqb name (js "model")) eqn:E; [|reflexivity].
    apply jsstring_eqb_eq in E. subst. contradiction.
  - apply parts_text_concatenated.
Qed.

(** Two entries, the second from the model with a part that has no text. *)
Lemma convertToOpenAIMessages_one_per_entry_witness :
  exists m : ChatMessage,
    nth_error
      (convertToOpenAIMessages
         [ {| genai.role := Some (js "user");
              genai.parts := Some [ {| genai.text := Some (js "Hi") |} ] |};
           {| genai.role := Some (js "model");
              genai.parts := Some [ {| genai.text := Some (js "a") |};
                                    {| genai.text := None |};
                                    {| genai.text := Some (js "b") |} ] |} ])
      1 = Some m /\
    msg_role m = assistant /\ msg_content m = js "ab".
Proof.
  destruct (proj2 (convertToOpenAIMessages_one_per_entry
              [ {| genai.role := Some (js "user");
                   genai.parts := Some [ {| genai.text := Some (js "Hi") |} ] |};
                {| genai.role := Some (js "model");
                   genai.parts := Some [ {| genai.text := Some (js "a") |};
                                         {| genai.text := None |};
                                         {| genai.text := Some (js "b") |} ] |} ])
              1 _ eq_refl) as (m & Hm & Hmodel & _ & Htext).
  exists m. split; [exact Hm|]. split; [apply Hmodel; reflexivity|exact Htext].
Defined.

(** ** The token estimator *)

Lemma length_concat_sum (xss : list jsstring) :
  length (concat xss) = list_sum (map (@length code_unit) xss).
Proof.
  induction xss as [|xs xss IH]; simpl; [reflexivity|].
  now rewrite length_app, IH.
Qed.

Lemma countTokens_text_concat (request : CountTokensParameters) :
  countTokens_text request
  = concat (map concatenated_text (contentsToParts (count_contents request))).
Proof.
  unfold countTokens_text. rewrite join_empty, map_map.
  f_equal. apply map_ext. intros c. apply parts_text_concatenated.
Qed.

Lemma countTokens_text_length (request : CountTokensParameters) :
  length (countTokens_text request) = total_text_length (count_contents request).
Proof.
  rewrite countTokens_text_concat, length_concat_sum, map_map.
  unfold total_text_length. f_equal. apply map_ext. intros c.
  unfold concatenated_text. now rewrite length_concat_sum, map_map.
Qed.

(** The ceiling of a quarter, in integers. *)
Lemma Math_ceil_quarter (n : Z) : Math_ceil (n # 4) = ((n + 3) / 4)%Z.
Proof.
  unfold Math_ceil, Qceiling, Qfloor. simpl.
  change (Z.pos 4) with 4%Z.
  pose proof (Z.div_mod (- n) 4 ltac:(lia)) as D1.
  pose proof (Z.mod_pos_bound (- n) 4 ltac:(lia)) as B1.
  pose proof (Z.div_mod (n + 3) 4 ltac:(lia)) as D2.
  pose proof (Z.mod_pos_bound (n + 3) 4 ltac:(lia)) as B2.
  lia.
Qed.

Lemma Math_ceil_quarter_bounds (n : Z) :
  (4 * Math_ceil (n # 4) - 4 < n <= 4 * Math_ceil (n # 4))%Z.
Proof.
  rewrite Math_ceil_quarter.
  pose proof (Z.div_mod (n + 3) 4 ltac:(lia)) as D2.
  pose proof (Z.mod_pos_bound (n + 3) 4 ltac:(lia)) as B2.
  lia.
Qed.

Lemma token_estimate_total (request : CountTokensParameters) :
  token_estimate request
  = Math_ceil (Z.of_nat (total_text_length (count_contents request)) # 4).
Proof. unfold token_estimate. now rewrite countTokens_text_length. Qed.

(** C6. The token estimator puts all part texts of all entries one after
    the other with nothing between them and settles with the ceiling of a
    quarter of the length of that text: the least integer [t] with
    [length <= 4 * t].  The result is a function of the request alone (the
    instance and the world play no part) and the call leaves the world as
    it was; a longer total text never gives a smaller count; the empty
    string counts 0, a string of four code units 1, one of five 2. *)
Theorem countTokens_ceil_quarter :
  (forall this request w,
      countTokens this request w
      = (Fulfilled {| totalTokens := token_estimate request |}, w)) /\
  (forall request,
      countTokens_text request
      = concat (map concatenated_text
                  (contentsToParts (count_contents request)))) /\
  (forall request,
      let n := Z.of_nat (total_text_length (count_contents request)) in
      token_estimate request = Math_ceil (n # 4) /\
      token_estimate request = ((n + 3) / 4)%Z /\
      (4 * token_estimate request - 4 < n <= 4 * token_estimate request)%Z) /\
  (forall r1 r2,
      total_text_length (count_contents r1)
      <= total_text_length (count_contents r2) ->
      (token_estimate r1 <= token_estimate r2)%Z) /\
  token_estimate {| count_contents := genai.Text [] |} = 0%Z /\
  token_estimate {| count_contents := genai.Text (js "abcd") |} = 1%Z /\
  token_estimate {| count_contents := genai.Text (js "abcde") |} = 2%Z.
Proof.
  split; [reflexivity|].
  split; [exact countTokens_text_concat|].
  split.
  { intros request n. subst n. rewrite token_estimate_total.
    split; [reflexivity|]. split; [apply Math_ceil_quarter|].
    apply Math_ceil_quarter_bounds. }
  split.
  { intros r1 r2 H. rewrite !token_estimate_total, !Math_ceil_quarter.
    apply Z.div_le_mono; lia. }
  repeat split; reflexivity.
Qed.

(** Four code units against five spread over three entries. *)
Lemma countTokens_ceil_quarter_witness :
  (token_estimate {| count_contents := genai.Text (js "abcd") |}
   <= token_estimate
        {| count_contents :=
             genai.Contents
               [ {| genai.role := Some (js "user");
                    genai.parts := Some [ {| genai.text := Some (js "abc") |};
                                          {| genai.text := None |} ] |};
                 {| genai.role := None; genai.parts := None |};
                 {| genai.role := Some (js "model");
                    genai.parts := Some [ {| genai.text := Some (js "de") |} ] |}
               ] |})%Z.
Proof.
  apply (proj1 (proj2 (proj2 (proj2 countTokens_ceil_quarter)))).
  vm_compute. lia.
Defined.

(* ===================================================================== *)
(** * Properties of the response wrapper *)
(* ===================================================================== *)

(** ** Iteration *)

Lemma ViewIterator_next_used (v : OpenAIGenerateContentResponse) (k : N) :
  k <> 0%N ->
  ViewIterator_next {| self := v; i := k |}
  = ({| value := v; done := true |}, {| self := v; i := N.succ k |}).
Proof.
  intros Hk. unfold ViewIterator_next. simpl.
  destruct (N.eqb k 0) eqn:E; [apply N.eqb_eq in E; contradiction|reflexivity].
Qed.

Lemma next_results_used (v : OpenAIGenerateContentResponse) (n : nat) :
  forall k, k <> 0%N ->
    next_results n {| self := v; i := k |}
    = repeat {| value := v; done := true |} n.
Proof.
  induction n as [|n IH]; intros k Hk; simpl; [reflexivity|].
  rewrite ViewIterator_next_used by exact Hk.
  rewrite IH by lia. reflexivity.
Qed.

(** C9. A response view is iterable: the first [next()] of its iterator
    gives the view itself, not [done]; every later [next()] is [done], so a
    loop over the iterator sees exactly one element, the view, and ends. *)
Theorem view_iterates_once (v : OpenAIGenerateContentResponse) :
  fst (ViewIterator_next (Symbol_iterator v)) = {| value := v; done := false |} /\
  (forall n : nat,
      next_results (S n) (Symbol_iterator v)
      = {| value := v; done := false |}
        :: repeat {| value := v; done := true |} n) /\
  (forall extra : nat, for_of (2 + extra) (Symbol_iterator v) = Some [v]).
Proof.
  split; [reflexivity|]. split.
  - intros n. simpl. f_equal. apply next_results_used. discriminate.
  - intros extra. reflexivity.
Qed.

(** ** Candidates *)

Lemma get_readable (v : any) (k : jsstring) :
  readable v = true -> get v k = Normal (field_of v k).
Proof. destruct v; simpl; intros H; try discriminate; reflexivity. Qed.

Lemma candidate_of_readable (choice : any) :
  readable choice = true ->
  readable (field_of choice (js "message")) = true ->
  candidate_of choice
  = Normal {| index := field_of choice (js "index");
              content :=
                {| content_role := js "model";
                   content_parts :=
                     [{| part_text :=
                           field_of (field_of choice (js "message")) (js "content") |}] |};
              finishReason := field_of choice (js "finish_reason");
              citationMetadata := {| citationSources := [] |} |}.
Proof.
  intros Hc Hm. unfold candidate_of.
  rewrite !(@get_readable _ _ Hc). simpl.
  rewrite (@get_readable _ _ Hm). reflexivity.
Qed.

Lemma map_completion_all {A B} (f : A -> completion B) (g : A -> B)
  (xs : list A) :
  (forall x, In x xs -> f x = Normal (g x)) ->
  map_completion f xs = Normal (map g xs).
Proof.
  induction xs as [|x xs IH]; intros H; simpl; [reflexivity|].
  rewrite (H x (or_introl eq_refl)). simpl.
  rewrite IH by (intros y Hy; apply H; now right). reflexivity.
Qed.

(** C4 as stated fails, in two ways.  The only choice of the first payload
    has a message without [content]: the statement gives its candidate a
    part with the empty string as text, and the getter gives it a part
    whose text is [undefined].  The only choice of the second payload has
    no message: the statement gives it a candidate all the same, and the
    getter throws a TypeError. *)
Lemma candidates_absent_content_is_undefined :
  (exists (choice : any) (c : Candidate),
      get payload_without_content (js "choices") = Normal (VArray [choice]) /\
      candidates {| data := payload_without_content |} = Normal [c] /\
      content_or_empty choice = VString [] /\
      content_parts (content c) = [{| part_text := VUndefined |}] /\
      content_parts (content c)
      <> [{| part_text := content_or_empty choice |}]) /\
  (exists choice : any,
      get payload_without_message (js "choices") = Normal (VArray [choice]) /\
      content_or_empty choice = VString [] /\
      candidates {| data := payload_without_message |} = Throw TypeError).
Proof.
  split.
  - eexists. eexists. split; [reflexivity|]. split; [reflexivity|].
    split; [reflexivity|]. split; [reflexivity|].
    simpl. intros H. discriminate H.
  - eexists. split; [reflexivity|]. split; reflexivity.
Qed.

(** C4, amended. When the payload's [choices] is an array and every choice
    in it has a [message] (so that reading [content] from it does not
    throw), [candidates] gives one candidate per choice, in order.  The
    candidate at position [n] has the role [model], exactly one part, whose
    text is [message.content] of the choice at position [n] as it is
    ([undefined] when it is absent), the choice's [finish_reason] as its
    [finishReason], the choice's [index], and no citation sources. *)
Theorem candidates_one_per_choice (payload : any) (choices : list any) :
  get payload (js "choices") = Normal (VArray choices) ->
  forallb (fun c => readable c && readable (field_of c (js "message"))) choices
  = true ->
  exists cs : list Candidate,
    candidates {| data := payload |} = Normal cs /\
    length cs = length choices /\
    forall (n : nat) (choice : any),
      nth_error choices n = Some choice ->
      exists c : Candidate,
        nth_error cs n = Some c /\
        content_role (content c) = js "model" /\
        content_parts (content c)
        = [{| part_text := field_of (field_of choice (js "message")) (js "content") |}] /\
        finishReason c = field_of choice (js "finish_reason") /\
        index c = field_of choice (js "index") /\
        citationSources (citationMetadata c) = [].
Proof.
  intros Hchoices Hall. exists (map candidate_for choices).
  split.
  { unfold candidates. simpl. rewrite Hchoices. simpl.
    apply map_completion_all. intros c Hc.
    rewrite forallb_forall in Hall. specialize (Hall c Hc).
    apply andb_true_iff in Hall as [H1 H2].
    now apply candidate_of_readable. }
  split; [apply length_map|].
  intros n choice Hn. exists (candidate_for choice).
  split; [rewrite nth_error_map, Hn; reflexivity|].
  repeat split.
Qed.

(** The view of the second event of the short stream. *)
Lemma candidates_one_per_choice_witness :
  exists cs : list Candidate,
    candidates view_llo = Normal cs /\
    length cs = 1 /\
    exists c : Candidate,
      nth_error cs 0 = Some c /\
      content_parts (content c) = [{| part_text := VString (js "llo") |}] /\
      finishReason c = VString (js "stop").
Proof.
  destruct (@candidates_one_per_choice (data view_llo) _ eq_refl eq_refl)
    as (cs & Hcs & Hlen & Hnth).
  exists cs. split; [exact Hcs|]. split; [exact Hlen|].
  destruct (Hnth 0 _ eq_refl) as (c & Hc & _ & Hparts & Hfin & _).
  exists c. split; [exact Hc|]. split; [exact Hparts|exact Hfin].
Defined.

(* ===================================================================== *)
(** * Properties of the HTTP entry points *)
(* ===================================================================== *)

Lemma fetch_failure_contains (r : Response) :
  exists message,
    fetch_failure r = Error message /\
    includes message (decimal (status r)) = true /\
    includes message (statusText r) = true /\
    includes message (Response_text r) = true.
Proof.
  unfold fetch_failure. eexists. split; [reflexivity|].
  split; [|split].
  - apply includes_after, includes_here.
  - do 3 apply includes_after. apply includes_here.
  - do 5 apply includes_after. rewrite <- (app_nil_r (Response_text r)) at 1.
    apply includes_here.
Qed.

(** C5. Whatever the request, a response whose status is not a success
    status makes both entry points fail, with one error: its message holds
    the status code, the status text and the text of the whole body.  One
    request has gone out and no other follows: the responses the server
    would give to later requests are all still to come.  A status 500 with
    the body boom gives a message that contains 500 and boom. *)
Theorem non_ok_status_is_fatal
  (this : OpenAICompatibleContentGenerator)
  (request : GenerateContentParameters)
  (response : Response) (later : list Response) (log : list Request) :
  ok response = false ->
  let w := {| server := response :: later; sent := log |} in
  exists message : jsstring,
    generateContent this request w
    = (Rejected (Error message),
       {| server := later; sent := log ++ [chat_request this request false] |}) /\
    generateContentStream this request w
    = (Rejected (Error message),
       {| server := later; sent := log ++ [chat_request this request true] |}) /\
    message = js "Failed to fetch from local LLM: "
              ++ decimal (status response) ++ js " "
              ++ statusText response ++ js " "
              ++ utf8_decode (match response_body response with
                              | Some chunks => concat chunks
                              | None => []
                              end) /\
    includes message (decimal (status response)) = true /\
    includes message (statusText response) = true /\
    includes message (Response_text response) = true.
Proof.
  intros Hok w.
  destruct (fetch_failure_contains response) as (message & Hm & H1 & H2 & H3).
  exists message. subst w.
  unfold generateContent, generateContentStream, fetch. simpl.
  rewrite Hok. simpl. rewrite Hm.
  repeat split; try assumption.
  unfold fetch_failure in Hm. now inversion Hm.
Qed.

(** A status 500 with the body boom, before a response that would have
    succeeded. *)
Lemma non_ok_status_is_fatal_witness :
  exists message : jsstring,
    fst (generateContent {| endpoint := js "http://localhost:1234/v1";
                            model := js "local"; apiKey := js "k" |}
           {| contents := genai.Text (js "hi"); generationConfig := VUndefined |}
           {| server := [boom_response;
                         {| status := 200; statusText := js "OK";
                            response_body := Some [bq "{'choices':[]}"] |}];
              sent := [] |})
    = Rejected (Error message) /\
    includes message (js "500") = true /\
    includes message (js "boom") = true.
Proof.
  destruct (@non_ok_status_is_fatal
              {| endpoint := js "http://localhost:1234/v1";
                 model := js "local"; apiKey := js "k" |}
              {| contents := genai.Text (js "hi"); generationConfig := VUndefined |}
              boom_response
              [{| status := 200; statusText := js "OK";
                  response_body := Some [bq "{'choices':[]}"] |}]
              [] eq_refl)
    as (message & Hg & _ & _ & Hstatus & _ & Hbody).
  exists message. split; [rewrite Hg; reflexivity|].
  split; [exact Hstatus|exact Hbody].
Defined.

(** C8. [embedContent] throws, whatever it is given: the call itself ends
    in the error whose message is [embedContent not supported], no promise
    is returned, and nothing is sent. *)
Theorem embedContent_always_throws
  (this : OpenAICompatibleContentGenerator) (request : any) (w : World) :
  exists message : jsstring,
    embedContent this request w = (Throw (Error message), w) /\
    message = js "embedContent not supported" /\
    includes message (js "not supported") = true /\
    sent (snd (embedContent this request w)) = sent w.
Proof.
  exists (js "embedContent not supported").
  split; [reflexivity|]. split; [reflexivity|]. split; reflexivity.
Qed.

(* ===================================================================== *)
(** * Properties of the streaming generator *)
(* ===================================================================== *)

(** ** Up to the sentinel *)

Lemma for_lines_cons (line : jsstring) (rest : list jsstring) :
  for_lines (line :: rest)
  = if startsWith line DATA_PREFIX then
      let json := substring line (length DATA_PREFIX) in
      if jsstring_eqb (trim json) DONE then Some Return
      else
        match JSON_parse json with
        | Throw e => Some (Raise e)
        | Normal payload =>
            match remap payload with
            | Throw e => Some (Raise e)
            | Normal remapped => Some (Yield {| data := remapped |} rest)
            end
        end
    else for_lines rest.
Proof. reflexivity. Qed.

Lemma while_true_cons (chunk : list byte) (r : list (list byte)) :
  while_true (chunk :: r)
  = match for_lines (chunk_lines chunk) with
    | Some l => (l, r)
    | None => while_true r
    end.
Proof. reflexivity. Qed.

Lemma for_lines_skip (line : jsstring) (rest : list jsstring) :
  startsWith line DATA_PREFIX = false ->
  for_lines (line :: rest) = for_lines rest.
Proof. intros H. rewrite for_lines_cons. now rewrite H. Qed.

(** One call of [next()] on a generator that has not completed, as the
    consumer sees it. *)
Lemma for_await_unfold (f : nat) (r : list (list byte)) (ls : list jsstring) :
  for_await (S f) (running r ls)
  = match (match for_lines ls with
           | Some l => (l, r)
           | None => while_true r
           end) with
    | (Yield v rest, r') =>
        match for_await f (running r' rest) with
        | Some (vs, e) => Some (v :: vs, e)
        | None => None
        end
    | (Return, _) => Some ([], None)
    | (Raise e, _) => Some ([], Some e)
    end.
Proof.
  unfold running. simpl. unfold next. simpl.
  destruct (match for_lines ls with
            | Some l => (l, r)
            | None => while_true r
            end) as [[v rest| |e] r']; reflexivity.
Qed.

(** From here on [line] is a sentinel segment.  The segments before it
    decide the rest of the sequence: neither the segments after it nor the
    chunks still unread are looked at. *)
Section UpToSentinel.

Variable line : jsstring.
Hypothesis line_is_sentinel : is_sentinel line = true.

Lemma for_lines_sentinel (rest : list jsstring) :
  for_lines (line :: rest) = Some Return.
Proof.
  pose proof line_is_sentinel as H. unfold is_sentinel in H.
  apply andb_true_iff in H as [H1 H2].
  rewrite for_lines_cons. cbv zeta. now rewrite H1, H2.
Qed.

Lemma for_lines_up_to_sentinel (before a1 a2 : list jsstring) :
  match for_lines (before ++ line :: a1), for_lines (before ++ line :: a2) with
  | Some (Yield v1 rest1), Some (Yield v2 rest2) =>
      v1 = v2 /\ exists b, rest1 = b ++ line :: a1 /\ rest2 = b ++ line :: a2
  | Some Return, Some Return => True
  | Some (Raise e1), Some (Raise e2) => e1 = e2
  | _, _ => False
  end.
Proof.
  induction before as [|l before IH].
  - simpl app. rewrite !for_lines_sentinel. exact I.
  - simpl app. rewrite !for_lines_cons. cbv zeta.
    destruct (startsWith l DATA_PREFIX); [|exact IH].
    destruct (jsstring_eqb _ DONE); [exact I|].
    destruct (JSON_parse _) as [payload|e]; [|reflexivity].
    destruct (remap payload) as [remapped|e]; [|reflexivity].
    split; [reflexivity|]. now exists before.
Qed.

Lemma for_await_up_to_sentinel (fuel : nat) :
  forall (before a1 a2 : list jsstring) (r1 r2 : list (list byte)),
    for_await fuel (running r1 (before ++ line :: a1))
    = for_await fuel (running r2 (before ++ line :: a2)).
Proof.
  induction fuel as [|f IH]; intros before a1 a2 r1 r2; [reflexivity|].
  rewrite !for_await_unfold.
  pose proof (for_lines_up_to_sentinel before a1 a2) as H.
  destruct (for_lines (before ++ line :: a1)) as [[v1 rest1| |e1]|];
    destruct (for_lines (before ++ line :: a2)) as [[v2 rest2| |e2]|];
    try contradiction; try reflexivity.
  - destruct H as [-> (b & -> & ->)]. now rewrite (IH b a1 a2 r1 r2).
  - now subst.
Qed.

(** Two streams that agree up to the sentinel: after the same chunks
    [earlier], a chunk of each with the same segments [before] the
    sentinel. *)
Section TwoStreams.

Variables c1 c2 : list byte.
Variables before a1 a2 : list jsstring.
Variables l1 l2 : list (list byte).
Hypothesis lines_c1 : chunk_lines c1 = before ++ line :: a1.
Hypothesis lines_c2 : chunk_lines c2 = before ++ line :: a2.

Lemma while_true_up_to_sentinel (earlier : list (list byte)) :
  match while_true (earlier ++ c1 :: l1),
        while_true (earlier ++ c2 :: l2) with
  | (Yield v1 rest1, r1), (Yield v2 rest2, r2) =>
      v1 = v2 /\
      ((rest1 = rest2 /\
        exists e, r1 = e ++ c1 :: l1 /\ r2 = e ++ c2 :: l2) \/
       (exists b, rest1 = b ++ line :: a1 /\ rest2 = b ++ line :: a2))
  | (Return, _), (Return, _) => True
  | (Raise e1, _), (Raise e2, _) => e1 = e2
  | _, _ => False
  end.
Proof.
  induction earlier as [|e earlier IH].
  - simpl app. rewrite !while_true_cons. rewrite lines_c1, lines_c2.
    pose proof (for_lines_up_to_sentinel before a1 a2) as H.
    destruct (for_lines (before ++ line :: a1)) as [[v1 rest1| |x1]|];
      destruct (for_lines (before ++ line :: a2)) as [[v2 rest2| |x2]|];
      try contradiction; try exact H.
    destruct H as (-> & b & -> & ->). split; [reflexivity|]. right. now exists b.
  - simpl app. rewrite !while_true_cons.
    destruct (for_lines _) as [[v rest| |x]|]; try reflexivity; [|exact IH].
    split; [reflexivity|]. left. split; [reflexivity|]. now exists earlier.
Qed.

Lemma for_await_past_sentinel (fuel : nat) :
  forall (earlier : list (list byte)) (ls : list jsstring),
    for_await fuel (running (earlier ++ c1 :: l1) ls)
    = for_await fuel (running (earlier ++ c2 :: l2) ls).
Proof.
  induction fuel as [|f IH]; intros earlier ls; [reflexivity|].
  rewrite !for_await_unfold.
  destruct (for_lines ls) as [[v rest| |x]|]; try reflexivity.
  { now rewrite IH. }
  pose proof (while_true_up_to_sentinel earlier) as H.
  destruct (while_true (earlier ++ c1 :: l1)) as [[v1 rest1| |e1] r1];
    destruct (while_true (earlier ++ c2 :: l2)) as [[v2 rest2| |e2] r2];
    try contradiction; try reflexivity.
  - destruct H as (-> & [(-> & e & -> & ->)|(b & -> & ->)]).
    + now rewrite IH.
    + now rewrite (for_await_up_to_sentinel f b a1 a2 r1 r2).
  - now subst.
Qed.

End TwoStreams.

End UpToSentinel.

Lemma after_finished (n : nat) (g : StreamGenerator) :
  completed g = true -> after n g = g.
Proof.
  intros H. induction n as [|n IH]; simpl; [reflexivity|].
  unfold next at 1. rewrite H. simpl. exact IH.
Qed.

(** ** Every stream is consumed in finitely many steps *)

Lemma for_lines_yield_shorter (ls : list jsstring) :
  forall v rest, for_lines ls = Some (Yield v rest) -> length rest < length ls.
Proof.
  induction ls as [|l ls IH]; intros v rest H; [discriminate|].
  rewrite for_lines_cons in H. cbv zeta in H.
  destruct (startsWith l DATA_PREFIX).
  - destruct (jsstring_eqb _ DONE); [discriminate|].
    destruct (JSON_parse _) as [payload|e]; [|discriminate].
    destruct (remap payload); inversion H; subst. simpl. lia.
  - apply IH in H. simpl. lia.
Qed.

Lemma while_true_yield_shorter (r : list (list byte)) :
  forall v rest r',
    while_true r = (Yield v rest, r') ->
    length rest + list_sum (map (fun c => length (chunk_lines c)) r')
    < list_sum (map (fun c => length (chunk_lines c)) r).
Proof.
  induction r as [|c r IH]; intros v rest r' H; [discriminate|].
  rewrite while_true_cons in H. simpl.
  destruct (for_lines (chunk_lines c)) as [l|] eqn:E.
  - inversion H; subst. apply for_lines_yield_shorter in E. lia.
  - apply IH in H. lia.
Qed.

Lemma for_await_enough_fuel (fuel : nat) :
  forall g, pending_lines g < fuel -> for_await fuel g <> None.
Proof.
  induction fuel as [|f IH]; intros [r ls [|]] Hp; [lia|lia| |].
  - simpl. unfold next. simpl. discriminate.
  - change {| reader := r; lines := ls; completed := false |} with (running r ls).
    rewrite for_await_unfold. unfold pending_lines in Hp. simpl in Hp.
    destruct (for_lines ls) as [l|] eqn:E.
    + destruct l as [v rest| |e]; try discriminate.
      apply for_lines_yield_shorter in E.
      assert (Hr : for_await f (running r rest) <> None).
      { apply IH. unfold pending_lines. simpl. lia. }
      destruct (for_await f (running r rest)) as [[vs e]|]; [discriminate|congruence].
    + destruct (while_true r) as [[v rest| |e] r'] eqn:W; try discriminate.
      apply while_true_yield_shorter in W.
      assert (Hr : for_await f (running r' rest) <> None).
      { apply IH. unfold pending_lines. simpl. lia. }
      destruct (for_await f (running r' rest)) as [[vs e]|]; [discriminate|congruence].
Qed.

(** The consumer of any generator comes to an end, with the views it was
    given and the error, if any. *)
Lemma for_await_terminates (g : StreamGenerator) :
  exists vs e, for_await (S (pending_lines g)) g = Some (vs, e).
Proof.
  pose proof (@for_await_enough_fuel (S (pending_lines g)) g (Nat.lt_succ_diag_r _)).
  destruct (for_await (S (pending_lines g)) g) as [[vs e]|]; [|contradiction].
  now exists vs, e.
Qed.

(** ** The sequence of views *)

(** C7. A segment that does not start with [data: ] is passed over: the
    generator behaves on it and the segments after it exactly as on the
    segments after it alone (no view, no error, same results after), and a
    chunk with no other kind of segment is passed over whole.  A segment
    with the prefix whose remainder trims to [[DONE]] ends the sequence:
    [next()] is fulfilled with [done], not rejected. *)
Theorem segments_without_prefix_and_sentinel :
  (forall (line : jsstring) (rest : list jsstring) (r : list (list byte)),
      startsWith line DATA_PREFIX = false ->
      for_lines (line :: rest) = for_lines rest /\
      next {| reader := r; lines := line :: rest; completed := false |}
      = next {| reader := r; lines := rest; completed := false |}) /\
  (forall (chunk : list byte) (r : list (list byte)),
      forallb (fun l => negb (startsWith l DATA_PREFIX)) (chunk_lines chunk)
      = true ->
      while_true (chunk :: r) = while_true r) /\
  (forall (line : jsstring) (rest : list jsstring) (r : list (list byte)),
      startsWith line DATA_PREFIX = true ->
      trim (substring line (length DATA_PREFIX)) = DONE ->
      for_lines (line :: rest) = Some Return /\
      next {| reader := r; lines := line :: rest; completed := false |}
      = (Fulfilled {| value := None; done := true |},
         {| reader := r; lines := []; completed := true |})).
Proof.
  split; [|split].
  - intros line rest r H. split; [now apply for_lines_skip|].
    unfold next. simpl completed. cbv iota. simpl lines. simpl reader.
    now rewrite (@for_lines_skip line rest H).
  - intros chunk r H. rewrite while_true_cons.
    assert (E : for_lines (chunk_lines chunk) = None).
    { induction (chunk_lines chunk) as [|l ls IH]; [reflexivity|].
      simpl in H. apply andb_true_iff in H as [Hl Hls].
      apply negb_true_iff in Hl. rewrite (@for_lines_skip l ls Hl). now apply IH. }
    now rewrite E.
  - intros line rest r Hp Hd.
    assert (Hs : is_sentinel line = true).
    { unfold is_sentinel. rewrite Hp, Hd. reflexivity. }
    split; [exact (@for_lines_sentinel line Hs rest)|].
    unfold next. simpl completed. cbv iota. simpl lines.
    rewrite (@for_lines_sentinel line Hs rest). reflexivity.
Qed.

(** Comment and event lines without the prefix, and a sentinel with blanks
    around it. *)
Lemma segments_without_prefix_and_sentinel_witness :
  next {| reader := [frame_He];
          lines := [js ": keep-alive"; js "event: ping"];
          completed := false |}
  = next {| reader := [frame_He]; lines := [js "event: ping"];
            completed := false |} /\
  while_true [bytes ": keep-alive" ++ [x0a; x0a]; frame_He]
  = while_true [frame_He] /\
  next {| reader := [frame_He];
          lines := [js "data:  [DONE] "; jq "data: {'choices':[]}"];
          completed := false |}
  = (Fulfilled {| value := None; done := true |},
     {| reader := [frame_He]; lines := []; completed := true |}).
Proof.
  destruct segments_without_prefix_and_sentinel as (Hskip & Hchunk & Hdone).
  split; [|split].
  - exact (proj2 (Hskip (js ": keep-alive") [js "event: ping"] [frame_He]
                    eq_refl)).
  - exact (Hchunk (bytes ": keep-alive" ++ [x0a; x0a]) [frame_He] eq_refl).
  - exact (proj2 (Hdone (js "data:  [DONE] ") [jq "data: {'choices':[]}"]
                    [frame_He] eq_refl eq_refl)).
Defined.

(** C10. Once the generator meets a sentinel segment it returns: that
    [next()] is [done], the chunks still unread stay unread, and every
    later [next()] is [done] with nothing yielded.  What a consumer sees
    does not depend on anything behind the sentinel: two streams that agree
    up to a sentinel segment give the same views and the same end, whatever
    segments follow the sentinel in its chunk and whatever chunks follow
    after. *)
Theorem nothing_after_done
  (line : jsstring) (before behind behind' : list jsstring)
  (chunk chunk' : list byte) (earlier later later' : list (list byte)) :
  startsWith line DATA_PREFIX = true ->
  trim (substring line (length DATA_PREFIX)) = DONE ->
  chunk_lines chunk = before ++ line :: behind ->
  chunk_lines chunk' = before ++ line :: behind' ->
  (next {| reader := later; lines := line :: behind; completed := false |}
   = (Fulfilled {| value := None; done := true |},
      {| reader := later; lines := []; completed := true |}) /\
   forall n : nat,
     next (after n {| reader := later; lines := []; completed := true |})
     = (Fulfilled {| value := None; done := true |},
        {| reader := later; lines := []; completed := true |})) /\
  (forall fuel : nat,
      for_await fuel {| reader := later; lines := before ++ line :: behind;
                        completed := false |}
      = for_await fuel {| reader := []; lines := before ++ [line];
                          completed := false |}) /\
  (forall (fuel : nat) (pending : list jsstring),
      for_await fuel {| reader := earlier ++ chunk :: later; lines := pending;
                        completed := false |}
      = for_await fuel {| reader := earlier ++ chunk' :: later';
                          lines := pending; completed := false |}).
Proof.
  intros Hp Hd Hc Hc'.
  assert (Hs : is_sentinel line = true).
  { unfold is_sentinel. rewrite Hp, Hd. reflexivity. }
  split; [split|split].
  - unfold next. simpl completed. cbv iota. simpl lines.
    rewrite (@for_lines_sentinel line Hs behind). reflexivity.
  - intros n. rewrite after_finished by reflexivity. reflexivity.
  - intros fuel.
    exact (@for_await_up_to_sentinel line Hs fuel before behind [] later []).
  - intros fuel pending.
    exact (@for_await_past_sentinel line Hs chunk chunk' before behind behind'
             later later' Hc Hc' fuel earlier pending).
Qed.

(** A sentinel followed by an event in its own chunk and by another
    chunk. *)
Lemma nothing_after_done_witness :
  for_await 5 {| reader := [frame_He; frame_DONE ++ frame_llo; frame_llo];
                 lines := []; completed := false |}
  = for_await 5 {| reader := [frame_He; frame_DONE];
                   lines := []; completed := false |} /\
  for_await 5 {| reader := [frame_He; frame_DONE];
                 lines := []; completed := false |}
  = Some ([view_He], None).
Proof.
  split; [|reflexivity].
  exact (proj2 (proj2
    (@nothing_after_done (js "data: [DONE]") []
       [jq "data: {'choices':[{'index':0,'delta':{'content':'llo'},'finish_reason':'stop'}]}"; []]
       [[]]
       (frame_DONE ++ frame_llo) frame_DONE [frame_He] [frame_llo] []
       eq_refl eq_refl eq_refl eq_refl)) 5 []).
Defined.

(** C1. The three frames of the short stream, each delivered in one read
    of a successful response: the generator yields the view of the first
    event, whose [text] is He, then the view of the second, whose [text] is
    llo, then is [done] (and stays so); a consumer gets exactly these two
    views and no error.  In both views the choice's [delta] is also its
    [message]. *)
Theorem stream_of_three_frames
  (this : OpenAICompatibleContentGenerator)
  (request : GenerateContentParameters)
  (reason : jsstring) (later : list Response) (log : list Request) :
  exists g g1 g2 g3 : StreamGenerator,
    fst (generateContentStream this request
           {| server := {| status := 200; statusText := reason;
                           response_body := Some hello_stream |} :: later;
              sent := log |})
    = Fulfilled g /\
    next g = (yielded view_He, g1) /\
    next g1 = (yielded view_llo, g2) /\
    next g2 = (finished_result, g3) /\
    next g3 = (finished_result, g3) /\
    for_await 3 g = Some ([view_He; view_llo], None) /\
    text view_He = Normal (VString (js "He")) /\
    text view_llo = Normal (VString (js "llo")) /\
    get (data view_He) (js "choices")
    = Normal (VArray
        [VObject [(js "index", VNumber (js "0"));
                  (js "delta", VObject [(js "content", VString (js "He"))]);
                  (js "finish_reason", VNull);
                  (js "message", VObject [(js "content", VString (js "He"))])]]).
Proof.
  exists (started hello_stream).
  exists {| reader := [frame_llo; frame_DONE]; lines := [[]]; completed := false |}.
  exists {| reader := [frame_DONE]; lines := [[]]; completed := false |}.
  exists {| reader := []; lines := []; completed := true |}.
  split; [reflexivity|].
  split; [vm_compute; reflexivity|].
  split; [vm_compute; reflexivity|].
  split; [vm_compute; reflexivity|].
  split; [reflexivity|].
  split; [vm_compute; reflexivity|].
  repeat split.
Qed.

(** C2. The bytes of the short stream again, now cut by the transport
    inside the second event.  The stream as a whole is the same and, read
    in one piece, decodes to the two views.  Split per read, the first read
    ends in a segment that starts with [data: ] and holds only the
    beginning of the second event; [JSON.parse] throws a SyntaxError on
    it, and the sequence yields the first view and then ends in that
    error. *)
Theorem straddled_event_aborts :
  concat straddled_stream = concat hello_stream /\
  for_await 3 (started [concat hello_stream])
  = Some ([view_He; view_llo], None) /\
  (exists event truncated : jsstring,
      chunk_lines straddle_first_read = [event; truncated] /\
      startsWith truncated DATA_PREFIX = true /\
      truncated = jq "data: {'choices':[{'index':0,'delta':{'content':'ll" /\
      JSON_parse (substring truncated (length DATA_PREFIX)) = Throw SyntaxError /\
      parse_value (2 * length (substring truncated (length DATA_PREFIX)) + 1)
        (substring truncated (length DATA_PREFIX)) = Malformed) /\
  (exists g1 g2 : StreamGenerator,
      next (started straddled_stream) = (yielded view_He, g1) /\
      next g1 = (Rejected SyntaxError, g2) /\
      completed g2 = true /\
      next g2 = (finished_result, g2)) /\
  for_await 2 (started straddled_stream) = Some ([view_He], Some SyntaxError).
Proof.
  split; [reflexivity|].
  split; [vm_compute; reflexivity|].
  split.
  { eexists. eexists. split; [vm_compute; reflexivity|].
    split; [reflexivity|]. split; [reflexivity|].
    split; vm_compute; reflexivity. }
  split.
  { eexists. eexists. split; [vm_compute; reflexivity|].
    split; [vm_compute; reflexivity|]. split; reflexivity. }
  vm_compute; reflexivity.
Qed.

(* ===================================================================== *)
(** * Further properties of the response wrapper *)
(* ===================================================================== *)

Lemma candidates_inv (v : OpenAIGenerateContentResponse) (cs : list Candidate) :
  candidates v = Normal cs ->
  exists choices,
    get (data v) (js "choices") = Normal (VArray choices) /\
    map_completion candidate_of choices = Normal cs.
Proof.
  unfold candidates. destruct (get (data v) (js "choices")) as [ch|e] eqn:E;
    simpl; [|discriminate].
  destruct ch; simpl; try discriminate. intros H. eauto.
Qed.

Lemma candidate_of_text (choice : any) (c : Candidate) :
  candidate_of choice = Normal c ->
  exists message t,
    get choice (js "message") = Normal message /\
    get message (js "content") = Normal t /\
    content_parts (content c) = [{| part_text := t |}].
Proof.
  unfold candidate_of.
  destruct (get choice (js "index")) as [idx|e]; simpl; [|discriminate].
  destruct (get choice (js "message")) as [message|e]; simpl; [|discriminate].
  destruct (get message (js "content")) as [t|e] eqn:Et; simpl; [|discriminate].
  destruct (get choice (js "finish_reason")) as [r|e]; simpl; [|discriminate].
  intros H. inversion H. exists message, t. repeat split. exact Et.
Qed.

(** X1. The [text] getter and the [candidates] getter agree: when
    [candidates] gives at least one candidate, [text] is the text of the
    one part of the first; when it gives none, [text] throws a
    TypeError. *)
Theorem text_is_first_candidate (v : OpenAIGenerateContentResponse) :
  (forall (c : Candidate) (cs : list Candidate),
      candidates v = Normal (c :: cs) ->
      exists t : any,
        content_parts (content c) = [{| part_text := t |}] /\
        text v = Normal t) /\
  (candidates v = Normal [] -> text v = Throw TypeError).
Proof.
  split.
  - intros c cs H. apply candidates_inv in H as (choices & Hch & Hmap).
    destruct choices as [|choice choices]; simpl in Hmap; [discriminate|].
    destruct (candidate_of choice) as [c'|e] eqn:Ec; simpl in Hmap;
      [|discriminate].
    destruct (map_completion candidate_of choices); simpl in Hmap;
      [|discriminate].
    inversion Hmap; subst.
    apply candidate_of_text in Ec as (message & t & Hm & Ht & Hp).
    exists t. split; [exact Hp|].
    unfold text. rewrite Hch. simpl. rewrite Hm. simpl. exact Ht.
  - intros H. apply candidates_inv in H as (choices & Hch & Hmap).
    destruct choices as [|choice choices].
    + unfold text. rewrite Hch. reflexivity.
    + simpl in Hmap. destruct (candidate_of choice); simpl in Hmap;
        [|discriminate].
      destruct (map_completion candidate_of choices); discriminate.
Qed.

Lemma text_is_first_candidate_witness :
  exists t : any,
    text view_He = Normal t /\ t = VString (js "He") /\
    text {| data := VObject [(js "choices", VArray [])] |} = Throw TypeError.
Proof.
  destruct (proj1 (text_is_first_candidate view_He) _ _ eq_refl)
    as (t & Hp & Ht).
  exists t. split; [exact Ht|]. split.
  - simpl in Hp. inversion Hp. reflexivity.
  - exact (proj2 (text_is_first_candidate
                    {| data := VObject [(js "choices", VArray [])] |}) eq_refl).
Defined.

(* ===================================================================== *)
(** * Further properties of the converter and the estimator *)
(* ===================================================================== *)

(** X2. A bare string is one message of the user with the string as its
    content, whatever the string: the empty string gives one message with
    empty content, not none. *)
Theorem bare_string_is_one_user_message (s : jsstring) :
  convertToOpenAIMessages (contentsToParts (genai.Text s))
  = [{| msg_role := user; msg_content := s |}] /\
  countTokens_text {| count_contents := genai.Text s |} = s /\
  token_estimate {| count_contents := genai.Text s |}
  = ((Z.of_nat (length s) + 3) / 4)%Z.
Proof.
  split; [reflexivity|]. split; [reflexivity|].
  unfold token_estimate. apply Math_ceil_quarter.
Qed.

(** X3. What [countTokens] counts is what the entry points send: the text
    it measures is the contents of the chat messages
    [convertToOpenAIMessages] builds from the same input, one after the
    other. *)
Theorem counted_text_is_sent_text (c : genai.ContentListUnion) :
  countTokens_text {| count_contents := c |}
  = concat (map msg_content (convertToOpenAIMessages (contentsToParts c))) /\
  token_estimate {| count_contents := c |}
  = Math_ceil
      (Z.of_nat
         (list_sum (map (fun m => length (msg_content m))
                      (convertToOpenAIMessages (contentsToParts c)))) # 4).
Proof.
  assert (E : countTokens_text {| count_contents := c |}
              = concat (map msg_content
                          (convertToOpenAIMessages (contentsToParts c)))).
  { unfold countTokens_text. simpl.
    rewrite join_empty, convertToOpenAIMessages_map, !map_map. reflexivity. }
  split; [exact E|].
  unfold token_estimate. rewrite E, length_concat_sum, map_map. reflexivity.
Qed.

Lemma total_text_length_app (a b : list genai.Content) :
  total_text_length (genai.Contents (a ++ b))
  = total_text_length (genai.Contents a) + total_text_length (genai.Contents b).
Proof.
  unfold total_text_length. simpl. rewrite map_app, list_sum_app. reflexivity.
Qed.

(** X4. Conversations compose.  The messages of two lists of contents put
    together are the messages of the first followed by those of the
    second, nothing merged at the seam; and the estimate of the whole is at
    most the sum of the estimates of the parts and less than one token
    below it. *)
Theorem conversations_compose (a b : list genai.Content) :
  convertToOpenAIMessages (a ++ b)
  = convertToOpenAIMessages a ++ convertToOpenAIMessages b /\
  (token_estimate {| count_contents := genai.Contents (a ++ b) |}
   <= token_estimate {| count_contents := genai.Contents a |}
      + token_estimate {| count_contents := genai.Contents b |}
   <= token_estimate {| count_contents := genai.Contents (a ++ b) |} + 1)%Z.
Proof.
  split.
  - rewrite !convertToOpenAIMessages_map. apply map_app.
  - rewrite !token_estimate_total, !Math_ceil_quarter. simpl count_contents.
    rewrite total_text_length_app, Nat2Z.inj_add.
    set (x := Z.of_nat (total_text_length (genai.Contents a))).
    set (y := Z.of_nat (total_text_length (genai.Contents b))).
    pose proof (Z.div_mod (x + y + 3) 4 ltac:(lia)).
    pose proof (Z.mod_pos_bound (x + y + 3) 4 ltac:(lia)).
    pose proof (Z.div_mod (x + 3) 4 ltac:(lia)).
    pose proof (Z.mod_pos_bound (x + 3) 4 ltac:(lia)).
    pose proof (Z.div_mod (y + 3) 4 ltac:(lia)).
    pose proof (Z.mod_pos_bound (y + 3) 4 ltac:(lia)).
    assert (0 <= x)%Z by (subst x; lia).
    assert (0 <= y)%Z by (subst y; lia).
    lia.
Qed.

(* ===================================================================== *)
(** * Further properties of the HTTP entry points *)
(* ===================================================================== *)


(** X6. [generateContent] does not look into the payload.  A success
    response whose body is JSON of any shape fulfils the call with a view
    of that value; when the value has no array under [choices] (an error
    object, say) the failure comes later, as a TypeError of the
    [candidates] getter, and of the [text] getter when [choices] is
    missing or null. *)
Theorem generateContent_wraps_any_json
  (this : OpenAICompatibleContentGenerator)
  (request : GenerateContentParameters)
  (response : Response) (later : list Response) (log : list Request)
  (payload : any) :
  ok response = true ->
  JSON_parse (Response_text response) = Normal payload ->
  fst (generateContent this request
         {| server := response :: later; sent := log |})
  = Fulfilled {| data := payload |} /\
  (is_array (field_of payload (js "choices")) = false ->
   candidates {| data := payload |} = Throw TypeError) /\
  (readable (field_of payload (js "choices")) = false ->
   text {| data := payload |} = Throw TypeError).
Proof.
  intros Hok Hparse. split; [|split].
  - unfold generateContent, fetch. simpl. rewrite Hok. simpl.
    unfold Response_json. rewrite Hparse. reflexivity.
  - intros Ha. unfold candidates. simpl.
    destruct payload as [| | | | | |fs]; try reflexivity. simpl in *.
    destruct (lookup fs (js "choices")) as [[]|]; try reflexivity.
    discriminate.
  - intros Hr. unfold text. simpl.
    destruct payload as [| | | | | |fs]; try reflexivity. simpl in *.
    destruct (lookup fs (js "choices")) as [[]|]; try reflexivity;
      discriminate.
Qed.

Lemma generateContent_wraps_any_json_witness :
  exists v : OpenAIGenerateContentResponse,
    fst (generateContent
           {| endpoint := js "http://localhost:1234/v1";
              model := js "local"; apiKey := js "k" |}
           {| contents := genai.Text (js "hi"); generationConfig := VUndefined |}
           {| server := [{| status := 200; statusText := js "OK";
                            response_body :=
                              Some [bq "{'error':"; bq "'overloaded'}"] |}];
              sent := [] |})
    = Fulfilled v /\
    data v = VObject [(js "error", VString (js "overloaded"))] /\
    candidates v = Throw TypeError /\
    text v = Throw TypeError.
Proof.
  destruct (@generateContent_wraps_any_json
              {| endpoint := js "http://localhost:1234/v1";
                 model := js "local"; apiKey := js "k" |}
              {| contents := genai.Text (js "hi");
                 generationConfig := VUndefined |}
              {| status := 200; statusText := js "OK";
                 response_body := Some [bq "{'error':"; bq "'overloaded'}"] |}
              [] []
              (VObject [(js "error", VString (js "overloaded"))])
              eq_refl eq_refl) as (Hg & Hc & Ht).
  eexists. split; [exact Hg|]. split; [reflexivity|].
  split; [exact (Hc eq_refl)|exact (Ht eq_refl)].
Defined.

(** X7. A success response without a body, or with an empty one.  Without
    a body the streaming call is rejected with the error [No response
    body] and the plain call with a SyntaxError (the empty text is no
    JSON).  With a body of no chunks the plain call is rejected the same
    way, and the streaming call is fulfilled with a generator whose first
    [next()] is [done]. *)
Theorem success_without_body
  (this : OpenAICompatibleContentGenerator)
  (request : GenerateContentParameters)
  (response : Response) (later : list Response) (log : list Request) :
  ok response = true ->
  (response_body response = None ->
   fst (generateContentStream this request
          {| server := response :: later; sent := log |})
   = Rejected (Error (js "No response body")) /\
   fst (generateContent this request
          {| server := response :: later; sent := log |})
   = Rejected SyntaxError) /\
  (response_body response = Some [] ->
   fst (generateContentStream this request
          {| server := response :: later; sent := log |})
   = Fulfilled (started []) /\
   next (started []) = (finished_result, finished []) /\
   fst (generateContent this request
          {| server := response :: later; sent := log |})
   = Rejected SyntaxError).
Proof.
  intros Hok. split; intros Hb.
  - unfold generateContentStream, generateContent, fetch. simpl.
    rewrite Hok, Hb. simpl. unfold Response_json, Response_text.
    rewrite Hb. split; reflexivity.
  - unfold generateContentStream, generateContent, fetch. simpl.
    rewrite Hok, Hb. simpl. unfold Response_json, Response_text.
    rewrite Hb. repeat split.
Qed.

Lemma success_without_body_witness :
  fst (generateContentStream
         {| endpoint := js "http://localhost:1234/v1";
            model := js "local"; apiKey := js "k" |}
         {| contents := genai.Text (js "hi"); generationConfig := VNull |}
         {| server := [{| status := 204; statusText := js "No Content";
                          response_body := None |}];
            sent := [] |})
  = Rejected (Error (js "No response body")) /\
  fst (generateContent
         {| endpoint := js "http://localhost:1234/v1";
            model := js "local"; apiKey := js "k" |}
         {| contents := genai.Text (js "hi"); generationConfig := VNull |}
         {| server := [{| status := 200; statusText := js "OK";
                          response_body := Some [] |}];
            sent := [] |})
  = Rejected SyntaxError.
Proof.
  split.
  - exact (proj1 (proj1 (@success_without_body
             {| endpoint := js "http://localhost:1234/v1";
                model := js "local"; apiKey := js "k" |}
             {| contents := genai.Text (js "hi"); generationConfig := VNull |}
             {| status := 204; statusText := js "No Content";
                response_body := None |} [] [] eq_refl) eq_refl)).
  - exact (proj2 (proj2 (proj2 (@success_without_body
             {| endpoint := js "http://localhost:1234/v1";
                model := js "local"; apiKey := js "k" |}
             {| contents := genai.Text (js "hi"); generationConfig := VNull |}
             {| status := 200; statusText := js "OK";
                response_body := Some [] |} [] [] eq_refl) eq_refl))).
Defined.

(* ===================================================================== *)
(** * Further properties of the streaming generator: the remapping *)
(* ===================================================================== *)

Lemma JSON_parse_throws_SyntaxError (s : jsstring) (e : exn) :
  JSON_parse s = Throw e -> e = SyntaxError.
Proof.
  unfold JSON_parse.
  destruct (parse_value _ s) as [| |v rest]; try (intros H; now inversion H).
  destruct (skip_ws rest); intros H; now inversion H.
Qed.

Lemma jsstring_eqb_refl (a : jsstring) : jsstring_eqb a a = true.
Proof. now apply jsstring_eqb_eq. Qed.

(** Writing a property and reading it back; writing leaves the other
    properties as they were. *)
Lemma lookup_set_property (fs : list (jsstring * any)) (k : jsstring) (v : any) :
  lookup (set_property fs k v) k = Some v.
Proof.
  induction fs as [|[k' v'] fs IH]; simpl.
  - now rewrite jsstring_eqb_refl.
  - destruct (jsstring_eqb k' k) eqn:E; simpl.
    + now rewrite jsstring_eqb_refl.
    + now rewrite E.
Qed.

Lemma lookup_set_property_other (fs : list (jsstring * any))
  (k k' : jsstring) (v : any) :
  k <> k' -> lookup (set_property fs k v) k' = lookup fs k'.
Proof.
  intros Hk. induction fs as [|[k0 v0] fs IH]; simpl.
  - destruct (jsstring_eqb k k') eqn:E; [|reflexivity].
    apply jsstring_eqb_eq in E. contradiction.
  - destruct (jsstring_eqb k0 k) eqn:E; simpl.
    + apply jsstring_eqb_eq in E. subst k0.
      destruct (jsstring_eqb k k') eqn:E'; [|reflexivity].
      apply jsstring_eqb_eq in E'. contradiction.
    + now rewrite IH.
Qed.

Lemma remap_choice_object (choice : any) :
  is_object choice = true -> remap_choice choice = Normal (with_message choice).
Proof. destruct choice; simpl; intros H; try discriminate; reflexivity. Qed.

Lemma candidate_of_with_message (choice : any) :
  is_object choice = true ->
  readable (field_of choice (js "delta")) = true ->
  candidate_of (with_message choice) = Normal (delta_candidate choice).
Proof.
  destruct choice as [| | | | | |fs]; simpl; intros H; try discriminate.
  intros Hd. unfold candidate_of, with_message. simpl get.
  rewrite lookup_set_property.
  rewrite !lookup_set_property_other by discriminate.
  simpl. rewrite (@get_readable _ _ Hd). reflexivity.
Qed.

Lemma candidate_of_without_delta (choice : any) :
  is_object choice = true ->
  readable (field_of choice (js "delta")) = false ->
  get (with_message choice) (js "message")
  = Normal (field_of choice (js "delta")) /\
  candidate_of (with_message choice) = Throw TypeError.
Proof.
  destruct choice as [| | | | | |fs]; simpl; intros H; try discriminate.
  intros Hd. unfold candidate_of, with_message. simpl get.
  rewrite lookup_set_property.
  rewrite !lookup_set_property_other by discriminate.
  split; [reflexivity|]. simpl.
  destruct (lookup fs (js "delta")) as [[]|]; simpl in *;
    try discriminate; reflexivity.
Qed.

Lemma remap_objects (payload : any) (choices : list any) :
  get payload (js "choices") = Normal (VArray choices) ->
  forallb is_object choices = true ->
  remap payload
  = Normal (VObject (set_property (own_properties payload) (js "choices")
                       (VArray (map with_message choices)))).
Proof.
  intros Hc Ho. unfold remap. rewrite Hc. simpl.
  rewrite (@map_completion_all _ _ remap_choice with_message choices).
  - reflexivity.
  - intros c Hin. rewrite forallb_forall in Ho. now apply remap_choice_object, Ho.
Qed.

Lemma get_choices_object (payload : any) (choices : list any) :
  get payload (js "choices") = Normal (VArray choices) ->
  exists fs, payload = VObject fs.
Proof.
  destruct payload; simpl; intros H; try discriminate; eauto.
Qed.

(** X8. The view of a streamed event reads the deltas.  For an event whose
    [choices] is an array of objects that each have a [delta], the
    remapping succeeds and the view it yields has one candidate per
    choice, in order, whose text is the choice's [delta.content], with the
    choice's [finish_reason] and [index]; its [text] is the first choice's
    [delta.content] (a TypeError when there is no choice); and every other
    property of the event is in the view as it was. *)
Theorem streamed_view_reads_delta (payload : any) (choices : list any) :
  get payload (js "choices") = Normal (VArray choices) ->
  forallb (fun c => is_object c && readable (field_of c (js "delta"))) choices
  = true ->
  exists remapped : any,
    remap payload = Normal remapped /\
    candidates {| data := remapped |} = Normal (map delta_candidate choices) /\
    text {| data := remapped |}
    = match choices with
      | c :: _ => Normal (field_of (field_of c (js "delta")) (js "content"))
      | [] => Throw TypeError
      end /\
    (forall k : jsstring,
        k <> js "choices" -> get remapped k = get payload k).
Proof.
  intros Hc Hall.
  assert (Ho : forallb is_object choices = true).
  { rewrite forallb_forall in *. intros c Hin.
    specialize (Hall c Hin). now apply andb_true_iff in Hall as [H _]. }
  destruct (get_choices_object _ Hc) as [fs ->].
  eexists. split; [exact (remap_objects _ Hc Ho)|]. simpl own_properties.
  split; [|split].
  - unfold candidates. simpl. rewrite lookup_set_property. simpl.
    clear Hc Ho. induction choices as [|c cs IH]; [reflexivity|].
    simpl in Hall. apply andb_true_iff in Hall as [Hc Hcs].
    apply andb_true_iff in Hc as [H1 H2].
    simpl. rewrite (candidate_of_with_message _ H1 H2). simpl.
    rewrite (IH Hcs). reflexivity.
  - unfold text. simpl. rewrite lookup_set_property. simpl.
    destruct choices as [|c cs]; [reflexivity|].
    simpl in Hall. apply andb_true_iff in Hall as [Hc' _].
    apply andb_true_iff in Hc' as [H1 H2].
    destruct c as [| | | | | |cfs]; try discriminate.
    simpl. rewrite lookup_set_property. simpl.
    simpl in H2. now apply get_readable.
  - intros k Hk. simpl.
    rewrite lookup_set_property_other by (intros E; apply Hk; now symmetry).
    reflexivity.
Qed.

(** The event of the first frame of the short stream, before the
    remapping. *)
Lemma streamed_view_reads_delta_witness :
  exists remapped : any,
    remap (VObject
             [(js "id", VString (js "chatcmpl-1"));
              (js "choices",
               VArray [VObject [(js "index", VNumber (js "0"));
                                (js "delta",
                                 VObject [(js "content", VString (js "He"))]);
                                (js "finish_reason", VNull)]])])
    = Normal remapped /\
    text {| data := remapped |} = Normal (VString (js "He")) /\
    get remapped (js "id") = Normal (VString (js "chatcmpl-1")).
Proof.
  destruct (@streamed_view_reads_delta
              (VObject
                 [(js "id", VString (js "chatcmpl-1"));
                  (js "choices",
                   VArray [VObject [(js "index", VNumber (js "0"));
                                    (js "delta",
                                     VObject [(js "content", VString (js "He"))]);
                                    (js "finish_reason", VNull)]])])
              _ eq_refl eq_refl) as (remapped & Hr & _ & Ht & Hk).
  exists remapped. split; [exact Hr|]. split; [exact Ht|].
  rewrite (Hk (js "id")) by discriminate. reflexivity.
Defined.

(** X9. The remapping overwrites [message].  An event whose choices are
    objects is yielded even when one of them has no [delta] (or a null
    one): that choice's [message] becomes the missing [delta], whatever
    message the choice had, and the [candidates] getter of the view throws
    a TypeError. *)
Theorem remap_discards_message (payload : any) (choices : list any) :
  get payload (js "choices") = Normal (VArray choices) ->
  forallb is_object choices = true ->
  existsb (fun c => negb (readable (field_of c (js "delta")))) choices = true ->
  exists remapped : any,
    remap payload = Normal remapped /\
    get remapped (js "choices") = Normal (VArray (map with_message choices)) /\
    (forall c : any,
        In c choices ->
        get (with_message c) (js "message")
        = Normal (field_of c (js "delta"))) /\
    candidates {| data := remapped |} = Throw TypeError.
Proof.
  intros Hc Ho Hex.
  destruct (get_choices_object _ Hc) as [fs ->].
  eexists. split; [exact (remap_objects _ Hc Ho)|]. simpl own_properties.
  assert (Hg : get (VObject (set_property fs (js "choices")
                               (VArray (map with_message choices))))
                 (js "choices")
               = Normal (VArray (map with_message choices))).
  { simpl. now rewrite lookup_set_property. }
  split; [exact Hg|]. split.
  - intros c Hin. rewrite forallb_forall in Ho. specialize (Ho c Hin).
    destruct c as [| | | | | |cfs]; try discriminate.
    unfold with_message. simpl. now rewrite lookup_set_property.
  - unfold candidates. simpl data. rewrite Hg. simpl.
    clear Hc Hg. induction choices as [|c cs IH]; [discriminate|].
    simpl in Ho, Hex. apply andb_true_iff in Ho as [Hoc Hocs].
    simpl. destruct (readable (field_of c (js "delta"))) eqn:Er.
    + rewrite (candidate_of_with_message _ Hoc Er). simpl.
      simpl in Hex. now rewrite (IH Hocs Hex).
    + destruct (candidate_of_without_delta _ Hoc Er) as [_ Hthrow].
      now rewrite Hthrow.
Qed.

(** An event in the shape of a full completion: a message, no delta. *)
Lemma remap_discards_message_witness :
  exists remapped : any,
    remap payload_without_content = Normal remapped /\
    candidates {| data := payload_without_content |}
    = Normal [candidate_for
                (VObject [(js "index", VNumber (js "0"));
                          (js "message", VObject []);
                          (js "finish_reason", VString (js "stop"))])] /\
    candidates {| data := remapped |} = Throw TypeError.
Proof.
  destruct (@remap_discards_message payload_without_content _
              eq_refl eq_refl eq_refl) as (remapped & Hr & _ & _ & Hc).
  exists remapped. split; [exact Hr|]. split; [reflexivity|exact Hc].
Defined.

(* ===================================================================== *)
(** * Further properties of the streaming generator: the sequence *)
(* ===================================================================== *)

(** ** Reads are only lists of lines *)

Lemma for_lines_app (ls ls' : list jsstring) :
  for_lines (ls ++ ls')
  = match for_lines ls with
    | Some (Yield v rest) => Some (Yield v (rest ++ ls'))
    | Some l => Some l
    | None => for_lines ls'
    end.
Proof.
  induction ls as [|l ls IH]; [reflexivity|].
  simpl app. rewrite !for_lines_cons. cbv zeta.
  destruct (startsWith l DATA_PREFIX); [|exact IH].
  destruct (jsstring_eqb _ DONE); [reflexivity|].
  destruct (JSON_parse _) as [payload|e]; [|reflexivity].
  destruct (remap payload); reflexivity.
Qed.

Lemma while_true_flat (r : list (list byte)) :
  match while_true r,
        match for_lines (flat_map chunk_lines r) with
        | Some l => (l, [])
        | None => while_true []
        end with
  | (Yield v1 rest1, r1), (Yield v2 rest2, r2) =>
      v1 = v2 /\ rest2 = rest1 ++ flat_map chunk_lines r1 /\ r2 = []
  | (Return, _), (Return, _) => True
  | (Raise e1, _), (Raise e2, _) => e1 = e2
  | _, _ => False
  end.
Proof.
  induction r as [|c r IH]; [exact I|].
  rewrite while_true_cons. simpl flat_map. rewrite for_lines_app.
  destruct (for_lines (chunk_lines c)) as [[v rest| |e]|]; try easy.
Qed.

Lemma for_await_lines_ahead (fuel : nat) :
  forall (r : list (list byte)) (ls : list jsstring),
    for_await fuel {| reader := r; lines := ls; completed := false |}
    = for_await fuel {| reader := []; lines := lines_ahead r ls;
                        completed := false |}.
Proof.
  induction fuel as [|f IH]; intros r ls; [reflexivity|].
  fold (running r ls). fold (running [] (lines_ahead r ls)).
  rewrite !for_await_unfold. unfold lines_ahead. rewrite for_lines_app.
  destruct (for_lines ls) as [[v rest| |e]|]; try reflexivity.
  - unfold running. rewrite (IH r rest), (IH [] (rest ++ flat_map chunk_lines r)).
    unfold lines_ahead. simpl. now rewrite app_nil_r.
  - pose proof (while_true_flat r) as H.
    destruct (while_true r) as [[v1 rest1| |e1] r1];
      destruct (match for_lines (flat_map chunk_lines r) with
                | Some l => (l, [])
                | None => while_true []
                end) as [[v2 rest2| |e2] r2];
      try contradiction; try reflexivity.
    + destruct H as (-> & -> & ->). unfold running.
      rewrite (IH r1 rest1), (IH [] (rest1 ++ flat_map chunk_lines r1)).
      unfold lines_ahead. simpl. now rewrite app_nil_r.
    + now subst.
Qed.

(** X10. The generator keeps nothing between reads but the lines: what a
    consumer gets from the lines left of the current read and the reads
    still to come is what it gets from all those lines in one list and no
    read to come.  In particular two deliveries with the same lines, read
    by read, give the same. *)
Theorem reads_are_lists_of_lines :
  (forall (fuel : nat) (r : list (list byte)) (ls : list jsstring),
      for_await fuel {| reader := r; lines := ls; completed := false |}
      = for_await fuel {| reader := []; lines := lines_ahead r ls;
                          completed := false |}) /\
  (forall (fuel : nat) (r r' : list (list byte)),
      flat_map chunk_lines r = flat_map chunk_lines r' ->
      for_await fuel (started r) = for_await fuel (started r')).
Proof.
  split; [exact for_await_lines_ahead|].
  intros fuel r r' H. unfold started.
  rewrite (for_await_lines_ahead fuel r []), (for_await_lines_ahead fuel r' []).
  unfold lines_ahead. now rewrite H.
Qed.

(** Two events in one read with a separator between them, and in two
    reads with none. *)
Lemma reads_are_lists_of_lines_witness :
  for_await 3
    (started
       [frame_He
        ++ bq "data: {'choices':[{'index':0,'delta':{'content':'llo'},'finish_reason':'stop'}]}"])
  = for_await 3
      (started
         [bq "data: {'choices':[{'index':0,'delta':{'content':'He'},'finish_reason':null}]}";
          bq "data: {'choices':[{'index':0,'delta':{'content':'llo'},'finish_reason':'stop'}]}"]).
Proof.
  apply (proj2 reads_are_lists_of_lines). vm_compute. reflexivity.
Defined.

(** ** Lines without the prefix change nothing *)

Lemma for_lines_filter (ls : list jsstring) :
  match for_lines ls, for_lines (filter has_prefix ls) with
  | Some (Yield v1 rest1), Some (Yield v2 rest2) =>
      v1 = v2 /\ rest2 = filter has_prefix rest1
  | Some Return, Some Return => True
  | Some (Raise e1), Some (Raise e2) => e1 = e2
  | None, None => True
  | _, _ => False
  end.
Proof.
  induction ls as [|l ls IH]; [exact I|].
  simpl filter. destruct (has_prefix l) eqn:E; unfold has_prefix in E.
  - rewrite !for_lines_cons. cbv zeta. rewrite E.
    destruct (jsstring_eqb _ DONE); [exact I|].
    destruct (JSON_parse _) as [payload|e]; [|reflexivity].
    destruct (remap payload); easy.
  - rewrite (@for_lines_skip l ls E). exact IH.
Qed.

Lemma for_await_filter (fuel : nat) :
  forall ls : list jsstring,
    for_await fuel (running [] ls)
    = for_await fuel (running [] (filter has_prefix ls)).
Proof.
  induction fuel as [|f IH]; intros ls; [reflexivity|].
  rewrite !for_await_unfold.
  pose proof (for_lines_filter ls) as H.
  destruct (for_lines ls) as [[v1 rest1| |e1]|];
    destruct (for_lines (filter has_prefix ls)) as [[v2 rest2| |e2]|];
    try contradiction; try reflexivity.
  - destruct H as [-> ->]. now rewrite (IH rest1).
  - now subst.
Qed.

(** ** Events that end the sequence in an error *)

(** From here on [line] is a line at which the loop leaves by [stop], a
    return or a throw, whatever lines follow. *)
Section UpToStop.

Variable line : jsstring.
Variable stop : leave.
Hypothesis line_stops : forall rest, for_lines (line :: rest) = Some stop.
Hypothesis stop_ends : ends_sequence stop.

Lemma for_lines_up_to_stop (before a1 a2 : list jsstring) :
  match for_lines (before ++ line :: a1), for_lines (before ++ line :: a2) with
  | Some (Yield v1 rest1), Some (Yield v2 rest2) =>
      v1 = v2 /\ exists b, rest1 = b ++ line :: a1 /\ rest2 = b ++ line :: a2
  | Some Return, Some Return => True
  | Some (Raise e1), Some (Raise e2) => e1 = e2
  | _, _ => False
  end.
Proof.
  induction before as [|l before IH].
  - simpl app. rewrite !line_stops. destruct stop; easy.
  - simpl app. rewrite !for_lines_cons. cbv zeta.
    destruct (startsWith l DATA_PREFIX); [|exact IH].
    destruct (jsstring_eqb _ DONE); [exact I|].
    destruct (JSON_parse _) as [payload|e]; [|reflexivity].
    destruct (remap payload) as [remapped|e]; [|reflexivity].
    split; [reflexivity|]. now exists before.
Qed.

Lemma for_await_up_to_stop (fuel : nat) :
  forall (before a1 a2 : list jsstring) (r1 r2 : list (list byte)),
    for_await fuel (running r1 (before ++ line :: a1))
    = for_await fuel (running r2 (before ++ line :: a2)).
Proof.
  induction fuel as [|f IH]; intros before a1 a2 r1 r2; [reflexivity|].
  rewrite !for_await_unfold.
  pose proof (for_lines_up_to_stop before a1 a2) as H.
  destruct (for_lines (before ++ line :: a1)) as [[v1 rest1| |e1]|];
    destruct (for_lines (before ++ line :: a2)) as [[v2 rest2| |e2]|];
    try contradiction; try reflexivity.
  - destruct H as [-> (b & -> & ->)]. now rewrite (IH b a1 a2 r1 r2).
  - now subst.
Qed.

(** Two streams with the same lines up to [line] give a consumer the
    same. *)
Lemma for_await_same_up_to_stop (fuel : nat)
  (r1 r2 : list (list byte)) (ls1 ls2 before a1 a2 : list jsstring) :
  lines_ahead r1 ls1 = before ++ line :: a1 ->
  lines_ahead r2 ls2 = before ++ line :: a2 ->
  for_await fuel (running r1 ls1) = for_await fuel (running r2 ls2).
Proof.
  intros H1 H2. unfold running.
  rewrite (for_await_lines_ahead fuel r1 ls1).
  rewrite (for_await_lines_ahead fuel r2 ls2).
  rewrite H1, H2. apply for_await_up_to_stop.
Qed.

End UpToStop.

Lemma raise_stops (line : jsstring) (e : exn) :
  for_lines [line] = Some (Raise e) ->
  forall rest, for_lines (line :: rest) = Some (Raise e).
Proof.
  intros H rest. rewrite for_lines_cons in *. cbv zeta in *.
  destruct (startsWith line DATA_PREFIX); [|discriminate].
  destruct (jsstring_eqb _ DONE); [discriminate|].
  destruct (JSON_parse _) as [payload|e']; [|exact H].
  destruct (remap payload); [discriminate|exact H].
Qed.

Lemma remap_not_array (payload : any) :
  is_array (field_of payload (js "choices")) = false ->
  remap payload = Throw TypeError.
Proof.
  intros H. unfold remap.
  destruct payload as [| | | | | |fs]; try reflexivity. simpl in *.
  destruct (lookup fs (js "choices")) as [[]|]; try reflexivity. discriminate.
Qed.

(** X11. An event that cannot be decoded ends the sequence in its error.
    A line with the prefix whose payload is neither the sentinel nor JSON
    makes [next()] reject with a SyntaxError; one whose payload is JSON
    without an array under [choices] makes it reject with a TypeError.
    Either way the generator is completed, the chunks still unread stay
    unread, and a consumer gets the views of the events before that line
    and then the error: two streams with the same lines up to that line
    give the same, whatever follows. *)
Theorem undecodable_event_ends_sequence (line : jsstring) (e : exn) :
  startsWith line DATA_PREFIX = true ->
  jsstring_eqb (trim (substring line (length DATA_PREFIX))) DONE = false ->
  (JSON_parse (substring line (length DATA_PREFIX)) = Throw e \/
   exists payload,
     JSON_parse (substring line (length DATA_PREFIX)) = Normal payload /\
     is_array (field_of payload (js "choices")) = false /\ e = TypeError) ->
  (e = SyntaxError \/ e = TypeError) /\
  (forall (unread : list (list byte)) (behind : list jsstring),
      next {| reader := unread; lines := line :: behind; completed := false |}
      = (Rejected e, {| reader := unread; lines := []; completed := true |}) /\
      forall fuel : nat,
        for_await (S fuel)
          {| reader := unread; lines := line :: behind; completed := false |}
        = Some ([], Some e)) /\
  (forall (r r' : list (list byte)) (ls ls' before behind behind' : list jsstring)
          (fuel : nat),
      lines_ahead r ls = before ++ line :: behind ->
      lines_ahead r' ls' = before ++ line :: behind' ->
      for_await fuel {| reader := r; lines := ls; completed := false |}
      = for_await fuel {| reader := r'; lines := ls'; completed := false |}).
Proof.
  intros Hp Hd Hfail.
  assert (Hraise : for_lines [line] = Some (Raise e)).
  { rewrite for_lines_cons. cbv zeta. rewrite Hp, Hd.
    destruct Hfail as [Hs|(payload & Hs & Ha & ->)]; rewrite Hs.
    - reflexivity.
    - now rewrite (remap_not_array _ Ha). }
  pose proof (raise_stops _ Hraise) as Hstop.
  split; [|split].
  - destruct Hfail as [Hs|(_ & _ & _ & ->)]; [|now right].
    left. exact (JSON_parse_throws_SyntaxError _ Hs).
  - intros unread behind. split.
    + unfold next. simpl completed. cbv iota. simpl lines.
      rewrite (Hstop behind). reflexivity.
    + intros fuel. fold (running unread (line :: behind)).
      rewrite for_await_unfold, (Hstop behind). reflexivity.
  - intros r r' ls ls' before behind behind' fuel H1 H2.
    exact (@for_await_same_up_to_stop line (Raise e) Hstop I fuel
             r r' ls ls' before behind behind' H1 H2).
Qed.

(** An error object sent as an event, between two events of the short
    stream. *)
Lemma undecodable_event_ends_sequence_witness :
  for_await 4 (started [frame_He; bq "data: {'error':'overloaded'}" ++ [x0a; x0a];
                        frame_llo; frame_DONE])
  = for_await 4 (started [frame_He; bq "data: {'error':'overloaded'}"]) /\
  for_await 4 (started [frame_He; bq "data: {'error':'overloaded'}"])
  = Some ([view_He], Some TypeError).
Proof.
  split; [|vm_compute; reflexivity].
  refine (proj2 (proj2
    (@undecodable_event_ends_sequence
       (jq "data: {'error':'overloaded'}") TypeError eq_refl eq_refl
       (or_intror (ex_intro _ (VObject [(js "error", VString (js "overloaded"))])
                     (conj _ (conj eq_refl eq_refl))))))
    _ _ [] [] [jq "data: {'choices':[{'index':0,'delta':{'content':'He'},'finish_reason':null}]}"; []] _ [] 4 _ _);
    vm_compute; reflexivity.
Defined.

(** ** Whole frames *)

Lemma split_from_LF_free (a b cur : jsstring) :
  no_LF a = true ->
  split_from SEPARATOR (a ++ SEPARATOR ++ b) 0 cur
  = (rev cur ++ a) :: split_from SEPARATOR b 0 [].
Proof.
  revert cur. induction a as [|u a IH]; intros cur H.
  - rewrite app_nil_r. reflexivity.
  - simpl in H. apply andb_true_iff in H as [Hu Ha].
    apply negb_true_iff in Hu.
    rewrite <- app_comm_cons, split_from_cons.
    assert (E : startsWith (u :: a ++ SEPARATOR ++ b) SEPARATOR = false).
    { unfold SEPARATOR at 2. simpl. now rewrite Hu. }
    rewrite E, (IH (u :: cur) Ha). simpl. now rewrite <- app_assoc.
Qed.

Lemma no_LF_app (a b : jsstring) :
  no_LF (a ++ b) = no_LF a && no_LF b.
Proof. apply forallb_app. Qed.

Lemma no_LF_data_line (p : jsstring) :
  no_LF p = true -> no_LF (data_line p) = true.
Proof. intros H. unfold data_line. now rewrite no_LF_app, H. Qed.










(** ** One view per event *)





(** ** A separator cut by a read *)

(** X14. An event is lost without a word when a read boundary falls inside
    the separator before it.  The two reads [data: q], line feed, and line
    feed, [data: p], blank line, are together two whole frames; but the
    second read alone starts with a line feed, so its first line does not
    start with the prefix: the read yields nothing and raises nothing,
    whatever the payload [p]. *)
Theorem event_after_cut_separator_is_lost
  (chunk : list byte) (p : jsstring) :
  TextDecoder_decode chunk = LF :: frame p ->
  no_LF p = true ->
  chunk_lines chunk = [LF :: data_line p; []] /\
  (forall q : jsstring, (data_line q ++ [LF]) ++ LF :: frame p = frame q ++ frame p) /\
  (forall r : list (list byte), while_true (chunk :: r) = while_true r) /\
  (forall (fuel : nat) (r : list (list byte)) (ls : list jsstring),
      for_await fuel {| reader := chunk :: r; lines := ls; completed := false |}
      = for_await fuel {| reader := r; lines := ls; completed := false |}).
Proof.
  intros Hc Hp.
  assert (Hl : chunk_lines chunk = [LF :: data_line p; []]).
  { unfold chunk_lines, split. rewrite Hc.
    assert (E : frame p = data_line p ++ SEPARATOR ++ []).
    { unfold frame, data_line. now rewrite app_nil_r, <- app_assoc. }
    rewrite E, split_from_cons.
    assert (E' : startsWith (LF :: data_line p ++ SEPARATOR ++ []) SEPARATOR
                 = false) by reflexivity.
    rewrite E', (@split_from_LF_free (data_line p) _ [LF] (@no_LF_data_line p Hp)).
    reflexivity. }
  assert (Hn : for_lines (chunk_lines chunk) = None).
  { rewrite Hl. rewrite for_lines_skip by reflexivity.
    now rewrite for_lines_skip by reflexivity. }
  split; [exact Hl|]. split; [|split].
  - intros q. unfold frame, data_line, SEPARATOR.
    rewrite <- !app_assoc. reflexivity.
  - intros r. now rewrite while_true_cons, Hn.
  - intros fuel r ls.
    rewrite (for_await_lines_ahead fuel (chunk :: r) ls).
    rewrite (for_await_lines_ahead fuel r ls).
    fold (running [] (lines_ahead (chunk :: r) ls)).
    fold (running [] (lines_ahead r ls)).
    rewrite (for_await_filter fuel (lines_ahead (chunk :: r) ls)).
    rewrite (for_await_filter fuel (lines_ahead r ls)).
    unfold lines_ahead. simpl flat_map. rewrite Hl.
    rewrite !filter_app. reflexivity.
Qed.

(** The second event of the short stream, read right after a lone line
    feed: the consumer goes on to the sentinel and has seen no view. *)
Lemma event_after_cut_separator_is_lost_witness :
  for_await 2 (started [x0a :: frame_llo; frame_DONE]) = Some ([], None).
Proof.
  unfold started.
  rewrite (proj2 (proj2 (proj2
    (@event_after_cut_separator_is_lost (x0a :: frame_llo)
       (jq "{'choices':[{'index':0,'delta':{'content':'llo'},'finish_reason':'stop'}]}")
       eq_refl eq_refl))) 2 [frame_DONE] []).
  vm_compute. reflexivity.
Defined.

(** ** Nothing is lost by the split *)

(** X15. The lines of a read, with the separator put back between them,
    are the decoded text of the read: the split drops nothing and adds
    nothing, and a read always has at least one line. *)
Theorem lines_rejoin_to_chunk (chunk : list byte) :
  join (map Some (chunk_lines chunk)) SEPARATOR = TextDecoder_decode chunk /\
  intercalate SEPARATOR (chunk_lines chunk) = TextDecoder_decode chunk /\
  chunk_lines chunk <> [].
Proof.
  split; [|split].
  - apply join_split. discriminate.
  - rewrite <- join_strings. apply join_split. discriminate.
  - apply split_from_not_nil.
Qed.

(* ===================================================================== *)
(** * Further properties of the streaming generator: decoding per read *)
(* ===================================================================== *)

Lemma in_range_spec (lo hi b : N) :
  in_range lo hi b = true <-> (lo <= b <= hi)%N.
Proof.
  unfold in_range. rewrite andb_true_iff, !N.leb_le. reflexivity.
Qed.

Lemma in_range_false (lo hi b : N) :
  (b < lo \/ hi < b)%N -> in_range lo hi b = false.
Proof.
  intros H. destruct (in_range lo hi b) eqn:E; [|reflexivity].
  apply in_range_spec in E. lia.
Qed.

Lemma utf8_lead_expected (b : N) : utf8_expected (snd (utf8_lead b)).
Proof.
  unfold utf8_lead.
  destruct (N.leb b 127); [exact I|].
  destruct (in_range 194 223 b); [simpl; lia|].
  destruct (in_range 224 239 b).
  { simpl. destruct (N.eqb b 237); lia. }
  destruct (in_range 240 244 b); [|exact I].
  simpl. destruct (N.eqb b 244); lia.
Qed.

Lemma utf8_step_expected (st : option utf8_pending) (b : N) :
  utf8_expected (snd (utf8_step st b)).
Proof.
  destruct st as [p|]; simpl; [|apply utf8_lead_expected].
  destruct (in_range (lower_boundary p) (upper_boundary p) b).
  - destruct (bytes_needed p) as [|[|k]]; simpl; try exact I. lia.
  - pose proof (utf8_lead_expected b) as H.
    destruct (utf8_lead b) as [out st']. exact H.
Qed.

(** A lead byte read when nothing is pending emits nothing and starts a
    sequence. *)
Lemma utf8_lead_starts (b : N) :
  (194 <= b <= 244)%N -> exists p, utf8_lead b = ([], Some p).
Proof.
  intros H. unfold utf8_lead.
  assert (E : N.leb b 127 = false) by (apply N.leb_gt; lia). rewrite E.
  destruct (in_range 194 223 b) eqn:E1; [eauto|].
  destruct (in_range 224 239 b) eqn:E2; [eauto|].
  destruct (in_range 240 244 b) eqn:E3; [eauto|].
  exfalso.
  destruct (N.le_gt_cases b 223) as [L|G].
  { rewrite (proj2 (in_range_spec 194 223 b)) in E1 by lia. discriminate. }
  destruct (N.le_gt_cases b 239) as [L|G'].
  { rewrite (proj2 (in_range_spec 224 239 b)) in E2 by lia. discriminate. }
  rewrite (proj2 (in_range_spec 240 244 b)) in E3 by lia. discriminate.
Qed.

Lemma utf8_run_ends_in_lead (b : N) (p : list N) :
  (194 <= b <= 244)%N ->
  forall st, utf8_expected st ->
    exists out, utf8_run st (p ++ [b]) = out ++ [REPLACEMENT].
Proof.
  intros Hb. induction p as [|c p IH]; intros st Hst.
  - destruct (utf8_lead_starts Hb) as [pend Hl].
    simpl. destruct st as [pd|]; simpl.
    + simpl in Hst.
      rewrite in_range_false by lia. rewrite Hl. now exists [REPLACEMENT].
    + rewrite Hl. now exists [].
  - simpl. pose proof (utf8_step_expected st c) as H.
    destruct (utf8_step st c) as [out st']. simpl in H.
    destruct (IH st' H) as [out' E]. rewrite E.
    exists (out ++ out'). now rewrite app_assoc.
Qed.

Lemma strip_bom_keeps_end (xs : list N) :
  exists ys, strip_bom (xs ++ [REPLACEMENT]) = ys ++ [REPLACEMENT].
Proof.
  destruct xs as [|x xs]; simpl.
  - now exists [].
  - destruct (N.eqb x BOM); [now exists xs|now exists (x :: xs)].
Qed.

Lemma land_below (a : N) (n : N) : (N.land a (N.ones n) < 2 ^ n)%N.
Proof.
  rewrite N.land_ones. apply N.mod_lt. apply N.pow_nonzero. discriminate.
Qed.

(** X16. A character cut by a read is lost.  The decoder starts afresh on
    every read, so the text of a read that ends with the first byte of a
    character of several bytes ends with U+FFFD, and the text of a read
    that starts with a continuation byte starts with U+FFFD; the two bytes
    of a two-byte character decode to the character only when one read
    holds both. *)
Theorem character_cut_by_read :
  (forall (before : list byte) (b : byte),
      is_lead_byte b = true ->
      exists t, TextDecoder_decode (before ++ [b]) = t ++ [REPLACEMENT]) /\
  (forall (b : byte) (behind : list byte),
      is_continuation_byte b = true ->
      exists t, TextDecoder_decode (b :: behind) = REPLACEMENT :: t) /\
  (forall b1 b2 : byte,
      in_range 194 223 (Byte.to_N b1) = true ->
      is_continuation_byte b2 = true ->
      TextDecoder_decode [b1; b2]
      = [(N.land (Byte.to_N b1) 31 * 64 + N.land (Byte.to_N b2) 63)%N] /\
      TextDecoder_decode [b1] ++ TextDecoder_decode [b2]
      = [REPLACEMENT; REPLACEMENT]).
Proof.
  split; [|split].
  - intros before b Hb. apply in_range_spec in Hb.
    unfold TextDecoder_decode, utf8_decode. rewrite map_app. simpl map.
    destruct (@utf8_run_ends_in_lead (Byte.to_N b) (map Byte.to_N before) Hb
                None I) as [out E].
    rewrite E. destruct (strip_bom_keeps_end out) as [ys E'].
    rewrite E', flat_map_app. now exists (flat_map utf16_units ys).
  - intros b behind Hb. apply in_range_spec in Hb.
    unfold TextDecoder_decode, utf8_decode. simpl map. simpl utf8_run.
    unfold utf8_lead.
    assert (E0 : N.leb (Byte.to_N b) 127 = false) by (apply N.leb_gt; lia).
    rewrite E0, !in_range_false by lia. simpl.
    now eexists.
  - intros b1 b2 H1 H2.
    apply in_range_spec in H1. pose proof H2 as H2'.
    apply in_range_spec in H2'.
    assert (E0 : N.leb (Byte.to_N b1) 127 = false) by (apply N.leb_gt; lia).
    assert (E1 : in_range 194 223 (Byte.to_N b1) = true)
      by (apply in_range_spec; lia).
    assert (E2 : N.leb (Byte.to_N b2) 127 = false) by (apply N.leb_gt; lia).
    split.
    + unfold TextDecoder_decode, utf8_decode. simpl map. simpl utf8_run.
      unfold utf8_lead. rewrite E0, E1. simpl.
      unfold is_continuation_byte in H2. rewrite H2. simpl.
      set (cp := (N.shiftl (N.land (Byte.to_N b1) 31) 6
                  + N.land (Byte.to_N b2) 63)%N).
      assert (Hcp : (cp = N.land (Byte.to_N b1) 31 * 64
                          + N.land (Byte.to_N b2) 63)%N).
      { subst cp. now rewrite N.shiftl_mul_pow2. }
      assert (Hlt : (cp < 2048)%N).
      { rewrite Hcp.
        pose proof (land_below (Byte.to_N b1) 5) as L1.
        pose proof (land_below (Byte.to_N b2) 6) as L2.
        change (N.ones 5) with 31%N in L1. change (N.ones 6) with 63%N in L2.
        change (2 ^ 5)%N with 32%N in L1. change (2 ^ 6)%N with 64%N in L2.
        lia. }
      assert (Eb : N.eqb cp BOM = false) by (apply N.eqb_neq; unfold BOM; lia).
      rewrite Eb. simpl.
      unfold utf16_units.
      assert (El : N.ltb cp 65536 = true) by (apply N.ltb_lt; lia).
      rewrite El. simpl. now rewrite Hcp.
    + unfold TextDecoder_decode, utf8_decode. simpl map. simpl utf8_run.
      unfold utf8_lead. rewrite E0, E1, E2, !in_range_false by lia.
      reflexivity.
Qed.

(** The two bytes of e with an acute accent, C3 A9. *)
Lemma character_cut_by_read_witness :
  TextDecoder_decode [xc3; xa9] = [233%N] /\
  TextDecoder_decode [xc3] ++ TextDecoder_decode [xa9]
  = [REPLACEMENT; REPLACEMENT].
Proof.
  exact (proj2 (proj2 character_cut_by_read) xc3 xa9 eq_refl eq_refl).
Defined.

(** Reads of bytes below 128 cut no character: the text of the whole is
    the texts of the reads put together. *)
Lemma TextDecoder_decode_concat_ascii (chunks : list (list byte)) :
  Forall (Forall (fun b => (Byte.to_N b < 128)%N)) chunks ->
  TextDecoder_decode (concat chunks) = concat (map TextDecoder_decode chunks).
Proof.
  intros H. rewrite TextDecoder_decode_ascii.
  - rewrite concat_map. f_equal. apply map_ext_in. intros c Hc.
    symmetry. apply TextDecoder_decode_ascii.
    rewrite Forall_forall in H. now apply H.
  - apply Forall_concat. exact H.
Qed.

(* ===================================================================== *)
(** * Further properties of the streaming generator: the generator object *)
(* ===================================================================== *)

Lemma for_await_more_fuel (fuel : nat) :
  forall (g : StreamGenerator) (vs : list OpenAIGenerateContentResponse)
         (e : option exn),
    for_await fuel g = Some (vs, e) ->
    for_await (S fuel) g = Some (vs, e) /\ length vs < fuel.
Proof.
  induction fuel as [|f IH]; intros g vs e H; [discriminate|].
  change (for_await (S f) g) with
    (match next g with
     | (Rejected e, _) => Some ([], Some e)
     | (Fulfilled r, g') =>
         match done r, value r with
         | false, Some v =>
             match for_await f g' with
             | Some (vs, e) => Some (v :: vs, e)
             | None => None
             end
         | _, _ => Some ([], None)
         end
     end) in H.
  change (for_await (S (S f)) g) with
    (match next g with
     | (Rejected e, _) => Some ([], Some e)
     | (Fulfilled r, g') =>
         match done r, value r with
         | false, Some v =>
             match for_await (S f) g' with
             | Some (vs, e) => Some (v :: vs, e)
             | None => None
             end
         | _, _ => Some ([], None)
         end
     end).
  destruct (next g) as [[r|x] g'].
  - destruct (done r); [inversion H; subst; simpl; split; [reflexivity|lia]|].
    destruct (value r) as [v|];
      [|inversion H; subst; simpl; split; [reflexivity|lia]].
    destruct (for_await f g') as [[vs' e']|] eqn:E; [|discriminate].
    destruct (IH g' vs' e' E) as [E' L].
    inversion H; subst. rewrite E'. simpl. split; [reflexivity|lia].
  - inversion H; subst. simpl. split; [reflexivity|lia].
Qed.

Lemma for_await_extra_fuel (extra fuel : nat) (g : StreamGenerator)
  (vs : list OpenAIGenerateContentResponse) (e : option exn) :
  for_await fuel g = Some (vs, e) -> for_await (fuel + extra) g = Some (vs, e).
Proof.
  intros H. induction extra as [|k IH].
  - now rewrite Nat.add_0_r.
  - rewrite Nat.add_succ_r. now apply for_await_more_fuel.
Qed.

(** X17. Every sequence comes to an end.  A consumer of any generator is
    done after at most one call of [next()] more than the generator has
    lines ahead; it has then been given fewer views than calls, and more
    calls change nothing. *)
Theorem consumer_always_finishes (g : StreamGenerator) :
  exists (vs : list OpenAIGenerateContentResponse) (e : option exn),
    for_await (S (pending_lines g)) g = Some (vs, e) /\
    length vs <= pending_lines g /\
    forall extra : nat,
      for_await (S (pending_lines g) + extra) g = Some (vs, e).
Proof.
  destruct (for_await_terminates g) as (vs & e & H).
  exists vs, e. split; [exact H|]. split.
  - destruct (for_await_more_fuel _ _ H) as [_ L]. lia.
  - intros extra. now apply for_await_extra_fuel.
Qed.

Lemma while_true_suffix (r : list (list byte)) :
  exists n, snd (while_true r) = skipn n r.
Proof.
  induction r as [|c r [n IH]].
  - now exists 0.
  - rewrite while_true_cons.
    destruct (for_lines (chunk_lines c)) as [l|].
    + now exists 1.
    + exists (S n). exact IH.
Qed.

(** X18. A sequence that has ended stays ended, and nothing is read ahead.
    A [next()] that is [done] or rejected leaves the generator completed, a
    [next()] that yields leaves it running; a completed generator answers
    every [next()] with [done] and does not change.  A [next()] never puts
    chunks back: the chunks still unread afterwards are a tail of those
    unread before, and all of them when the lines already read held an
    event, a sentinel or an error. *)
Theorem generator_life_cycle (g : StreamGenerator) :
  (completed g = true -> next g = (finished_result, g)) /\
  (match fst (next g) with
   | Fulfilled r => completed (snd (next g)) = done r
   | Rejected _ => completed (snd (next g)) = true
   end) /\
  (forall n : nat,
      completed g = true -> fst (next (after n g)) = finished_result) /\
  (exists n : nat, reader (snd (next g)) = skipn n (reader g)) /\
  (for_lines (lines g) <> None -> reader (snd (next g)) = reader g).
Proof.
  split; [|split; [|split; [|split]]].
  - intros H. unfold next. now rewrite H.
  - unfold next. destruct (completed g) eqn:Ec; [exact Ec|].
    destruct (for_lines (lines g)) as [[v rest| |e]|]; try reflexivity.
    destruct (while_true (reader g)) as [[v rest| |e] r']; reflexivity.
  - intros n H. rewrite after_finished by exact H.
    unfold next. now rewrite H.
  - unfold next. destruct (completed g); [now exists 0|].
    destruct (for_lines (lines g)) as [[v rest| |e]|]; try (now exists 0).
    destruct (while_true_suffix (reader g)) as [n Hn].
    exists n. destruct (while_true (reader g)) as [[v rest| |e] r']; exact Hn.
  - intros H. unfold next. destruct (completed g); [reflexivity|].
    destruct (for_lines (lines g)) as [[v rest| |e]|]; try reflexivity.
    contradiction.
Qed.

(** Two events in the first read of three: the first [next()] leaves the
    two later reads untouched. *)
Lemma generator_life_cycle_witness :
  reader (snd (next {| reader := [frame_llo; frame_DONE];
                       lines := [jq "data: {'choices':[]}"; []];
                       completed := false |}))
  = [frame_llo; frame_DONE] /\
  fst (next (after 3 {| reader := [frame_llo]; lines := []; completed := true |}))
  = finished_result.
Proof.
  split.
  - refine (proj2 (proj2 (proj2 (proj2 (generator_life_cycle
      {| reader := [frame_llo; frame_DONE];
         lines := [jq "data: {'choices':[]}"; []];
         completed := false |})))) _).
    vm_compute. discriminate.
  - exact (proj1 (proj2 (proj2 (generator_life_cycle
      {| reader := [frame_llo]; lines := []; completed := true |}))) 3 eq_refl).
Defined.
